(** * Multi-modal blind source separation drivers (blinky-iva)

    A shallow embedding of the two driver scripts of the repository,

    - [mbss_sim.py]: [one_loop], its inner [convergence_callback], and
      [generate_arguments];
    - [mbss_oneshot.py]: [callback_mix], [convergence_callback] and the
      blinky-power and reordering steps of the main script,

    together with the properties of the drivers that the specification
    states.  Calls into NumPy, pyroomacoustics, mir_eval and the modules
    [routines], [generate_samples] and [blinkiva_gauss] are calls through the
    [Library] interface below; the drivers themselves are translated
    statement by statement into a state-and-exception monad over the part of
    the Python process state they touch. *)

From Stdlib Require Import Reals Lra Lia ZArith Sorted.
From stdpp Require Import base list strings.

Set Default Proof Using "Type".

(* ===================================================================== *)
(** * Floating-point scalars *)
(* ===================================================================== *)

(** A NumPy [float64] scalar, without rounding and without overflow: a real
    number or one of the three special values.  The special values arise in
    the drivers from [np.sqrt] of a negative number and from a division by
    an integer zero, both of which NumPy answers with a warning and
    [nan]/[inf], not with an exception. *)
Inductive npfloat : Type :=
  | Finite (r : R)
  | PosInf
  | NegInf
  | NaN.

(** [np.sqrt] *)
Definition np_sqrt (x : npfloat) : npfloat :=
  match x with
  | Finite r => if Rlt_dec r 0 then NaN else Finite (sqrt r)
  | PosInf => PosInf
  | NegInf => NaN
  | NaN => NaN
  end.

(** [np.maximum]: propagates [nan]. *)
Definition np_maximum (x y : npfloat) : npfloat :=
  match x, y with
  | NaN, _ | _, NaN => NaN
  | PosInf, _ | _, PosInf => PosInf
  | NegInf, z | z, NegInf => z
  | Finite a, Finite b => Finite (Rmax a b)
  end.

(** [x - y] *)
Definition np_sub (x y : npfloat) : npfloat :=
  match x, y with
  | NaN, _ | _, NaN => NaN
  | Finite a, Finite b => Finite (a - b)
  | PosInf, PosInf | NegInf, NegInf => NaN
  | PosInf, _ | _, NegInf => PosInf
  | NegInf, _ | _, PosInf => NegInf
  end.

(** [x * y] *)
Definition np_mul (x y : npfloat) : npfloat :=
  let signed_inf (neg : bool) (r : R) : npfloat :=
    if Rlt_dec 0 r then (if neg then NegInf else PosInf)
    else if Rlt_dec r 0 then (if neg then PosInf else NegInf)
    else NaN in
  match x, y with
  | NaN, _ | _, NaN => NaN
  | Finite a, Finite b => Finite (a * b)
  | Finite a, PosInf | PosInf, Finite a => signed_inf false a
  | Finite a, NegInf | NegInf, Finite a => signed_inf true a
  | PosInf, PosInf | NegInf, NegInf => PosInf
  | PosInf, NegInf | NegInf, PosInf => NegInf
  end.

(** [x ** 2] *)
Definition np_square (x : npfloat) : npfloat :=
  match x with
  | Finite r => Finite (r ^ 2)
  | PosInf | NegInf => PosInf
  | NaN => NaN
  end.

(** [x / n] for a [float64] [x] and a Python [int] [n]. *)
Definition np_div_int (x : npfloat) (n : Z) : npfloat :=
  match x with
  | Finite r =>
      if Z.eqb n 0 then
        if Rlt_dec 0 r then PosInf else if Rlt_dec r 0 then NegInf else NaN
      else Finite (r / IZR n)
  | PosInf => if Z.ltb n 0 then NegInf else PosInf
  | NegInf => if Z.ltb n 0 then PosInf else NegInf
  | NaN => NaN
  end.

(** [10 ** (- x / 10)]: a level in dB turned into a power ratio. *)
Definition db_to_ratio (x : R) : R := Rpower 10 (- x / 10).

(** [np.sum] and [np.mean] of a one-dimensional array. *)
Definition np_sum (v : list R) : R := foldr Rplus 0%R v.

Definition np_mean (v : list R) : npfloat :=
  np_div_int (Finite (np_sum v)) (Z.of_nat (length v)).

(** A value that is a real number and not negative. *)
Definition nonneg_real (x : npfloat) : Prop :=
  exists r : R, x = Finite r /\ (0 <= r)%R.

(* --------------------------------------------------------------------- *)
(** ** Noise and interference levels *)

(** [mbss_sim.one_loop], lines 88-89:
    [sources_var = np.ones(n_targets); sources_var[0] = weak_source_var],
    for [n_targets >= 1]. *)
Definition sources_var_of (n_targets : Z) (weak_source_var : R) : list R :=
  weak_source_var :: replicate (Z.to_nat n_targets - 1) 1%R.

(** [mbss_sim.one_loop], line 169. *)
Definition sim_sigma_n (snr : R) (sources_var : list R) : npfloat :=
  np_sqrt (Finite (db_to_ratio snr * np_sum sources_var)).

(** [mbss_sim.one_loop], lines 172-174. *)
Definition sim_sigma_i (snr sinr : R) (sources_var : list R)
    (n_interferers : Z) : npfloat :=
  let sigma_n := sim_sigma_n snr sources_var in
  np_sqrt
    (np_div_int
       (np_maximum (Finite 0)
          (np_sub (Finite (db_to_ratio sinr * np_sum sources_var))
                  (np_square sigma_n)))
       n_interferers).

(** [mbss_oneshot.callback_mix], line 239. *)
Definition mix_sigma_n (snr : R) (src_std : list R) : npfloat :=
  np_sqrt
    (np_mul (Finite (db_to_ratio snr))
            (np_mean (map (fun s => (s ^ 2)%R) src_std))).

(** [mbss_oneshot.callback_mix], lines 242-243. *)
Definition mix_sigma_i (sir : R) (src_std : list R) (n_src n_tgt : Z)
    : npfloat :=
  let num := (db_to_ratio sir * np_sum (map (fun s => (s ^ 2)%R) src_std))%R in
  np_sqrt (np_div_int (Finite num) (n_src - n_tgt)).

(* ===================================================================== *)
(** * Time-frequency tensors *)
(* ===================================================================== *)

(** A complex number, as its real and imaginary parts. *)
Definition complex : Type := (R * R)%type.

(** [np.abs] of a complex number. *)
Definition np_abs (z : complex) : R := sqrt (fst z ^ 2 + snd z ^ 2).

(** An STFT tensor of shape [(n_frames, n_freq, n_chan)]: the shape as NumPy
    keeps it, and the entries as nested lists, frames outermost. *)
Record Spectra : Type := mkSpectra {
  n_frames : nat;
  n_freq : nat;
  n_chan : nat;
  bins : list (list (list complex));
}.

(** The entries fill the declared shape. *)
Definition Spectra_wf (X : Spectra) : Prop :=
  length (bins X) = n_frames X /\
  Forall (fun frame =>
            length frame = n_freq X /\
            Forall (fun row : list complex => length row = n_chan X) frame)
         (bins X).

(** A real matrix, as a list of rows. *)
Definition matrix : Type := list (list R).

(** A matrix of shape [(rows, cols)], and a matrix without a negative
    entry. *)
Definition has_shape (U : matrix) (rows cols : nat) : Prop :=
  length U = rows /\ Forall (fun row => length row = cols) U.

Definition matrix_nonneg (U : matrix) : Prop :=
  Forall (Forall (Rle 0)) U.

(** [X[:, :, :n]] *)
Definition chan_take (n : nat) (X : Spectra) : Spectra :=
  {| n_frames := n_frames X; n_freq := n_freq X;
     n_chan := Nat.min n (n_chan X);
     bins := map (map (take n)) (bins X) |}.

(** [X[:, :, n:]] *)
Definition chan_drop (n : nat) (X : Spectra) : Spectra :=
  {| n_frames := n_frames X; n_freq := n_freq X;
     n_chan := n_chan X - n;
     bins := map (map (drop n)) (bins X) |}.

(** [np.sum(np.abs(X) ** 2, axis=1)]: for every frame, the sum over the
    frequency bins of the squared magnitudes, one value per channel. *)
Definition power_sum_axis1 (X : Spectra) : matrix :=
  map (fun frame =>
         foldr (zip_with Rplus) (replicate (n_chan X) 0%R)
               (map (map (fun z => (np_abs z ^ 2)%R)) frame))
      (bins X).

(** [mbss_sim.one_loop], line 196, and [mbss_oneshot], line 331:
    [X_mics = X_all[:, :, :n_mics]]. *)
Definition X_mics_of (X_all : Spectra) (n_mics : Z) : Spectra :=
  chan_take (Z.to_nat n_mics) X_all.

(** [mbss_sim.one_loop], line 197, and [mbss_oneshot], lines 336-338:
    [U_blinky = np.sum(np.abs(X_all[:, :, n_mics:]) ** 2, axis=1)]. *)
Definition U_blinky_of (X_all : Spectra) (n_mics : Z) : matrix :=
  power_sum_axis1 (chan_drop (Z.to_nat n_mics) X_all).

(** [np.dot] of two real matrices; [inner] is the shared dimension and
    [width] the number of columns of the second factor. *)
Definition np_dot (A B : matrix) (width : nat) : matrix :=
  map (fun a_row =>
         foldr (zip_with Rplus) (replicate width 0%R)
               (zip_with (fun a b_row => map (Rmult a) b_row) a_row B))
      A.

(** [mbss_oneshot], lines 143 and 333-338: the debug switch is a constant of
    the script, and it selects between the product of the ground-truth
    factors and the measured blinky power. *)
Definition use_fake_blinky : bool := false.

Definition oneshot_U_blinky (U_fake : matrix) (X_all : Spectra) (n_mics : Z)
    : matrix :=
  if use_fake_blinky then U_fake else U_blinky_of X_all n_mics.

(** [mbss_oneshot], line 289: [U_fake = np.dot(R_real, G_real)], with
    [G_real] of shape [(n_sources_target, n_blinkies)]. *)
Definition U_fake_of (R_real G_real : matrix) (n_blinkies : nat) : matrix :=
  np_dot R_real G_real n_blinkies.

(* ===================================================================== *)
(** * Exceptions, and the libraries the drivers call *)
(* ===================================================================== *)

Inductive exn : Type :=
  | KeyError (key : string)
  | IndexError
  | ValueError
  | AssertionError
  | AttributeError
  | LibraryError (msg : string).

(** How a Python call ends: with a value, or with an exception raised. *)
Inductive outcome (A : Type) : Type :=
  | Ok (a : A)
  | Raise (e : exn).
Arguments Ok {A} a.
Arguments Raise {A} e.

(** One component of a NumPy subscript: [:], [:stop], [start:],
    [start:stop], a single index, or [None] (a new axis). *)
Inductive index : Type :=
  | All
  | Upto (stop : Z)
  | From (start : Z)
  | Range (start stop : Z)
  | At (i : Z)
  | NewAxis.

(** The result of [mir_eval.separation.bss_eval_sources]:
    [(sdr, sir, sar, perm)]. *)
Definition bss_metrics : Type :=
  (list R * list R * list R * list nat)%type.

(** What a separation algorithm does, as its caller sees it.  Started at,
    or resumed from, a state of the random-number generator, it runs until
    it returns its estimate, hands an intermediate estimate to the callback,
    or raises; [r] is the state of the generator at that moment, and
    [resume] is the rest of the run, from the state the callback leaves. *)
Inductive alg_step (rng : Type) : Type :=
  | Return (Y : Spectra) (r : rng)
  | Callback (Y : Spectra) (r : rng) (resume : rng -> alg_step rng)
  | Fail (e : exn) (r : rng).
Arguments Return {rng} Y r.
Arguments Callback {rng} Y r resume.
Arguments Fail {rng} e r.

(** The interface of the code outside the two driver files.  A library
    function is a function of its arguments and of the state of NumPy's
    global random-number generator, and it may raise; it does not write to
    the objects it is given.  Array arithmetic is pure. *)
Class Library : Type := {
  rng_state : Type;
  ndarray : Type;
  Room : Type;
  MicrophoneArray : Type;
  kwargs : Type;
  ext (A : Type) : Type := rng_state -> outcome A * rng_state;

  (** numpy.random *)
  seeded : Z -> rng_state;
  randint : Z -> rng_state -> Z * rng_state;
  randn : list Z -> rng_state -> ndarray * rng_state;

  (** numpy arrays *)
  np_array : list npfloat -> ndarray;
  np_c_ : list R -> ndarray;
  np_ones : list Z -> ndarray;
  np_shape : ndarray -> list Z;
  np_getitem : ndarray -> list index -> ndarray;
  np_setitem : ndarray -> list index -> ndarray -> ndarray;
  np_scale : npfloat -> ndarray -> ndarray;
  np_add : ndarray -> ndarray -> ndarray;
  np_minus : ndarray -> ndarray -> ndarray;
  np_times : ndarray -> ndarray -> ndarray;
  np_divide : ndarray -> ndarray -> ndarray;
  np_sum_axis : Z -> ndarray -> ndarray;
  np_std_axis : Z -> ndarray -> ndarray;
  np_diff_axis : Z -> ndarray -> ndarray;
  np_moveaxis : ndarray -> Z -> Z -> ndarray;
  np_transpose : ndarray -> ndarray;
  np_concatenate_axis1 : ndarray -> ndarray -> ndarray;
  np_vstack : ndarray -> ndarray -> ndarray;
  np_rows : ndarray -> list ndarray;
  np_tolist : ndarray -> list R;
  np_take_columns : ndarray -> list nat -> ndarray;

  (** pyroomacoustics; a method of a room returns the room as the call
      leaves it *)
  pra_hann : Z -> ext ndarray;
  pra_compute_synthesis_window : ndarray -> Z -> ext ndarray;
  pra_circular_2D_array : list R -> Z -> R -> R -> ext ndarray;
  pra_ShoeBox : ndarray -> Z -> R -> Z -> ext Room;
  room_add_source : Room -> ndarray -> ndarray -> ext Room;
  room_sources : Room -> list ndarray;
  room_fs : Room -> Z;
  pra_MicrophoneArray : ndarray -> Z -> ext MicrophoneArray;
  room_add_microphone_array : Room -> MicrophoneArray -> ext Room;
  room_compute_rir : Room -> ext Room;
  room_simulate : Room -> ext ndarray;
  pra_analysis : ndarray -> Z -> Z -> ndarray -> ext Spectra;
  pra_synthesis : Spectra -> Z -> Z -> ndarray -> ext ndarray;
  pra_bss_auxiva : Spectra -> kwargs -> rng_state -> alg_step rng_state;

  (** routines, generate_samples, blinkiva_gauss *)
  random_layout : list R -> Z -> list R -> Z -> ext ndarray;
  semi_circle_layout : list R -> R -> R -> Z -> R -> option Z -> ext ndarray;
  gm_layout : Z -> ndarray -> list R -> Z -> ext ndarray;
  grid_layout : list R -> Z -> list R -> Z -> ext ndarray;
  wav_read_center : list string -> Z -> ext ndarray;
  sampling : Z -> Z -> string -> bool -> Z -> ext (list (list string));
  blinkiva_gauss :
    Spectra -> matrix -> Z -> kwargs -> rng_state -> alg_step rng_state;

  (** mir_eval *)
  bss_eval_sources : ndarray -> ndarray -> ext bss_metrics;
}.

(* ===================================================================== *)
(** * The process state and its monad *)
(* ===================================================================== *)

(** The objects that the callbacks receive by reference: arrays of spectra
    and lists of metric vectors. *)
Inductive pyobj : Type :=
  | PArray (a : Spectra)
  | PList (l : list (list R)).

(** A reference is an index into the store; objects are never freed. *)
Abbreviation loc := nat (only parsing).

Section Drivers.

Context {L : Library}.

(** The part of the Python process that the drivers read and write:
    NumPy's global generator, [sys.path], the store of shared objects, and
    the names of the library functions called so far, oldest first. *)
Record world : Type := mkWorld {
  np_random : rng_state;
  sys_path : list string;
  heap : list pyobj;
  calls : list string;
}.

(** A statement: it ends in a value or an exception, and in either case
    leaves a process state behind. *)
Definition M (A : Type) : Type := world -> outcome A * world.

#[export] Instance M_ret : MRet M := fun A a w => (Ok a, w).

#[export] Instance M_bind : MBind M := fun A B f m w =>
  match m w with
  | (Ok a, w') => f a w'
  | (Raise e, w') => (Raise e, w')
  end.

Definition raise {A : Type} (e : exn) : M A := fun w => (Raise e, w).

Definition with_np_random (r : rng_state) (w : world) : world :=
  {| np_random := r; sys_path := sys_path w; heap := heap w;
     calls := calls w |}.

(** A call of the library function [name]. *)
Definition call {A : Type} (name : string) (f : ext A) : M A := fun w =>
  let '(o, r) := f (np_random w) in
  (o, {| np_random := r; sys_path := sys_path w; heap := heap w;
         calls := calls w ++ [name] |}).

(** [np.random.get_state()], [np.random.seed(s)], [np.random.set_state(r)],
    [int(np.random.randint(high, dtype=np.uint32))] and
    [np.random.randn] at a shape. *)
Definition np_random_get_state : M rng_state := fun w => (Ok (np_random w), w).

Definition np_random_seed (s : Z) : M unit := fun w =>
  (Ok tt, with_np_random (seeded s) w).

Definition np_random_set_state (r : rng_state) : M unit := fun w =>
  (Ok tt, with_np_random r w).

Definition np_random_randint (high : Z) : M Z := fun w =>
  let '(n, r) := randint high (np_random w) in (Ok n, with_np_random r w).

Definition np_random_randn (shape : list Z) : M ndarray := fun w =>
  let '(a, r) := randn shape (np_random w) in (Ok a, with_np_random r w).

(** [sys.path.append(p)] *)
Definition sys_path_append (p : string) : M unit := fun w =>
  (Ok tt, {| np_random := np_random w; sys_path := sys_path w ++ [p];
             heap := heap w; calls := calls w |}).

(** Creating an object, and reading and updating one through a reference. *)
Definition alloc (o : pyobj) : M loc := fun w =>
  (Ok (length (heap w)),
   {| np_random := np_random w; sys_path := sys_path w;
      heap := heap w ++ [o]; calls := calls w |}).

Definition read_array (l : loc) : M Spectra := fun w =>
  match heap w !! l with
  | Some (PArray a) => (Ok a, w)
  | _ => (Raise AttributeError, w)
  end.

(** [l.append(x)] *)
Definition list_append (l : loc) (x : list R) : M unit := fun w =>
  match heap w !! l with
  | Some (PList xs) =>
      (Ok tt, {| np_random := np_random w; sys_path := sys_path w;
                 heap := <[l := PList (xs ++ [x])]> (heap w);
                 calls := calls w |})
  | _ => (Raise AttributeError, w)
  end.

(** [for x in xs: body], with the loop state [acc] threaded through. *)
Fixpoint for_each {A S : Type} (xs : list A) (body : S -> A -> M S) (acc : S)
    : M S :=
  match xs with
  | [] => mret acc
  | x :: xs' => acc' ← body acc x; for_each xs' body acc'
  end.

(** A call of the separation algorithm [name] with the callback [cb]
    ([None] for Python's [None]).  Every estimate handed to the callback,
    and the estimate returned, is an array object of its own. *)
Fixpoint run_alg (step : alg_step rng_state) (cb : option (loc -> M unit))
    : M loc :=
  match step with
  | Return Y r => np_random_set_state r;; alloc (PArray Y)
  | Fail e r => np_random_set_state r;; raise e
  | Callback Y r resume =>
      np_random_set_state r;;
      match cb with
      | Some f => y ← alloc (PArray Y); f y
      | None => mret tt
      end;;
      r' ← np_random_get_state;
      run_alg (resume r') cb
  end.

Definition call_alg (name : string) (alg : rng_state -> alg_step rng_state)
    (cb : option (loc -> M unit)) : M loc := fun w =>
  run_alg (alg (np_random w)) cb
    {| np_random := np_random w; sys_path := sys_path w; heap := heap w;
       calls := calls w ++ [name] |}.

(** [d[key]] on a dictionary, kept as its items in insertion order. *)
Fixpoint dict_get {V : Type} (d : list (string * V)) (key : string) : M V :=
  match d with
  | [] => raise (KeyError key)
  | (k, v) :: d' => if String.eqb k key then mret v else dict_get d' key
  end.

(** [np.max] of a list of integers. *)
Definition np_max (l : list Z) : M Z :=
  match l with
  | [] => raise ValueError
  | x :: l' => mret (foldr Z.max x l')
  end.

(** [np.argsort] of a one-dimensional array: the indices of the entries,
    smallest entry first. *)
Fixpoint argsort_insert (v : list R) (i : nat) (l : list nat) : list nat :=
  match l with
  | [] => [i]
  | j :: l' =>
      if Rle_dec (nth i v 0%R) (nth j v 0%R) then i :: j :: l'
      else j :: argsort_insert v i l'
  end.

Definition np_argsort (v : list R) : list nat :=
  foldr (argsort_insert v) [] (seq 0 (length v)).

(** [new_ord = np.argsort(np.std(y, axis=0))[::-1]; y = y[:, new_ord]] *)
Definition new_ord_of (y : ndarray) : list nat :=
  rev (np_argsort (np_tolist (np_std_axis 0 y))).

Definition reorder_by_power (y : ndarray) : ndarray :=
  np_take_columns y (new_ord_of y).

(* ===================================================================== *)
(** * mbss_sim.py *)
(* ===================================================================== *)

Record rt60_entry : Type := {
  absorption : R;
  max_order : Z;
}.

(** The global [parameters] of the simulation: the fields of the
    configuration file that the driver reads, and [base_dir], which [init]
    adds. *)
Record Parameters : Type := {
  base_dir : string;
  seed : Z;
  framesize : Z;
  n_repeat : Z;
  fs : Z;
  snr : R;
  n_interferers : Z;
  n_blinkies : Z;
  ref_mic : Z;
  room_dim : list R;
  weak_source_var : R;
  blinky_geometry : string;
  rt60_list : list (string * rt60_entry);
  use_pre_emphasis : bool;
  monitor_convergence : bool;
  algorithm_kwargs : list (string * kwargs);
  n_targets_list : list Z;
  n_mics_list : list Z;
  sinr_list : list R;
  samples_list : string;
}.

(** One argument list of [one_loop]:
    [[n_targets, n_mics, rt60, sinr, wav_files, seed]]. *)
Record sim_args : Type := {
  arg_n_targets : Z;
  arg_n_mics : Z;
  arg_rt60 : string;
  arg_sinr : R;
  arg_wav_files : list string;
  arg_seed : Z;
}.

(** One entry of the list that [one_loop] returns; [sdr] and [sir] are the
    two list objects of the entry. *)
Record result : Type := {
  algorithm : string;
  res_n_targets : Z;
  res_n_mics : Z;
  res_rt60 : string;
  res_sinr : R;
  res_seed : Z;
  sdr : loc;
  sir : loc;
}.

(** [results[-1]] *)
Definition results_last (results : list result) : M result :=
  match last results with
  | Some r => mret r
  | None => raise IndexError
  end.

(** [mbss_sim.one_loop], lines 200-214. *)
Definition convergence_callback (Y : loc) (n_targets : Z) (SDR SIR : loc)
    (ref : ndarray) (framesize : Z) (win_s : ndarray) (algo_name : string)
    : M unit :=
  Y_now ← read_array Y;
  y ← call "pra.transform.synthesis"
         (pra_synthesis Y_now framesize (framesize / 2) win_s);
  let y :=
    if negb (String.prefix "blinkiva" algo_name)
    then reorder_by_power y
    else y in
  let m := Z.min (default 0%Z (np_shape y !! 0%nat) - framesize / 2)
                 (default 0%Z (np_shape ref !! 1%nat)) in
  '(sdr, sir, sar, perm) ←
    call "bss_eval_sources"
      (bss_eval_sources
         (np_getitem ref [Upto n_targets; Upto m; At 0])
         (np_transpose
            (np_getitem y [Range (framesize / 2) (m + framesize / 2);
                           Upto n_targets])));
  list_append SDR sdr;;
  list_append SIR sir.

Section Simulation.

Variable parameters : Parameters.

(** [mbss_sim.one_loop], lines 70-180: the simulated recordings.  The
    result is [(mix, ref, win_a, win_s)]. *)
Definition generate_audio (n_targets n_mics : Z) (rt60 : string) (sinr : R)
    (wav_files : list string)
    : M (ndarray * ndarray * ndarray * ndarray) :=
  (* STFT parameters *)
  let framesize := framesize parameters in
  win_a ← call "pra.hann" (pra_hann framesize);
  win_s ← call "pra.transform.compute_synthesis_window"
             (pra_compute_synthesis_window win_a (framesize / 2));
  (* simulation parameters *)
  let snr := snr parameters in
  let n_interferers := n_interferers parameters in
  let n_blinkies := n_blinkies parameters in
  let ref_mic := ref_mic parameters in
  let room_dim := np_array (map Finite (room_dim parameters)) in
  sources_var ←
    (if (n_targets <? 0)%Z then raise ValueError
     else if (n_targets =? 0)%Z then raise IndexError
     else mret (sources_var_of n_targets (weak_source_var parameters)));
  let n_sources := (n_interferers + n_targets)%Z in
  (* geometry *)
  interferer_locs ←
    call "random_layout"
      (random_layout [3; 5.5; 1.5]%R n_interferers [6.5; 1; 0.5]%R 1);
  target_locs ←
    call "semi_circle_layout"
      (semi_circle_layout [4.1; 3.755; 1.2]%R (PI / 1.5) 2 n_targets
         (0.743 * PI) None);
  let source_locs := np_concatenate_axis1 target_locs interferer_locs in
  blinky_locs ←
    (if String.eqb (blinky_geometry parameters) "gm" then
       call "gm_layout"
         (gm_layout n_blinkies (np_minus target_locs (np_c_ [0; 0; 0.5]%R))
            [0.4; 0.4; 0.05]%R 987)
     else if String.eqb (blinky_geometry parameters) "grid" then
       call "grid_layout"
         (grid_layout [3; 5.5]%R n_blinkies [1; 1; 0.7]%R 987)
     else
       call "semi_circle_layout"
         (semi_circle_layout [4.1; 3.755; 1.1]%R PI 3.5 n_blinkies
            (0.743 * PI - PI / 4) (Some 987%Z)));
  circle ← call "pra.circular_2D_array"
              (pra_circular_2D_array [4.1; 3.76]%R n_mics (PI / 2) 0.02);
  let mic_locs :=
    np_vstack circle (np_scale (Finite 1.2) (np_ones [1%Z; n_mics])) in
  let all_locs := np_concatenate_axis1 mic_locs blinky_locs in
  signals ← call "wav_read_center" (wav_read_center wav_files 123);
  (* the room, its sources and its microphones *)
  cfg ← dict_get (rt60_list parameters) rt60;
  room ← call "pra.ShoeBox"
           (pra_ShoeBox room_dim (fs parameters) (absorption cfg)
              (max_order cfg));
  room ← for_each
           (zip (np_rows (np_getitem signals [From (- n_sources); All]))
                (np_rows (np_transpose source_locs)))
           (fun room '(sig, loc) =>
              call "room.add_source" (room_add_source room loc sig))
           room;
  (if (Z.of_nat (length (room_sources room)) =? n_sources)%Z then mret tt
   else raise AssertionError);;
  mics ← call "pra.MicrophoneArray"
           (pra_MicrophoneArray all_locs (room_fs room));
  room ← call "room.add_microphone_array"
           (room_add_microphone_array room mics);
  room ← call "room.compute_rir" (room_compute_rir room);
  premix ← call "room.simulate" (room_simulate room);
  (* unit variance at the reference microphone, then the chosen levels *)
  let p_mic_ref := np_std_axis 1 (np_getitem premix [All; At ref_mic; All]) in
  let premix :=
    np_divide premix (np_getitem p_mic_ref [All; NewAxis; NewAxis]) in
  let premix :=
    np_setitem premix [Upto n_targets; All; All]
      (np_times (np_getitem premix [Upto n_targets; All; All])
         (np_getitem (np_array (map (fun v => np_sqrt (Finite v)) sources_var))
            [All; NewAxis; NewAxis])) in
  let sigma_n := sim_sigma_n snr sources_var in
  let sigma_i := sim_sigma_i snr sinr sources_var n_interferers in
  let premix :=
    np_setitem premix [From n_targets; All; All]
      (np_scale sigma_i (np_getitem premix [From n_targets; All; All])) in
  noise ← np_random_randn (tail (np_shape premix));
  let mix := np_add (np_sum_axis 0 premix) (np_scale sigma_n noise) in
  let ref := np_moveaxis premix 1 2 in
  mret (mix, ref, win_a, win_s).

(** [mbss_sim.one_loop], lines 219-270: one round of the loop over
    [parameters['algorithm_kwargs'].items()].  [results] is the list built
    so far; [X_mics] is the array object of the microphone spectra. *)
Definition bss_algorithm (n_targets n_mics : Z) (rt60 : string) (sinr : R)
    (seed : Z) (X_mics : loc) (U_blinky : matrix) (ref win_s : ndarray)
    (results : list result) (item : string * kwargs) : M (list result) :=
  let '(name, kw) := item in
  let framesize := framesize parameters in
  sdr_list ← alloc (PList []);
  sir_list ← alloc (PList []);
  let results :=
    results ++ [ {| algorithm := name; res_n_targets := n_targets;
                    res_n_mics := n_mics; res_rt60 := rt60;
                    res_sinr := sinr; res_seed := seed;
                    sdr := sdr_list; sir := sir_list |} ] in
  let evaluate : loc -> M unit := fun Y =>
    r ← results_last results;
    convergence_callback Y n_targets (sdr r) (sir r) ref framesize win_s
      name in
  cb ← (if monitor_convergence parameters then mret (Some evaluate)
        else evaluate X_mics;; mret None);
  if String.eqb name "auxiva" then
    X ← read_array X_mics;
    Y ← call_alg "pra.bss.auxiva" (pra_bss_auxiva X kw) cb;
    evaluate Y;;
    mret results
  else if String.eqb name "blinkiva-gauss" then
    X ← read_array X_mics;
    Y ← call_alg "blinkiva_gauss" (blinkiva_gauss X U_blinky n_targets kw) cb;
    evaluate Y;;
    mret results
  else
    mret results.

(** [mbss_sim.one_loop], lines 182-270: separation and evaluation. *)
Definition bss (n_targets n_mics : Z) (rt60 : string) (sinr : R) (seed : Z)
    (mix ref win_a win_s : ndarray) : M (list result) :=
  let framesize := framesize parameters in
  (* pre-emphasis on blinky signals *)
  let mix :=
    if use_pre_emphasis parameters then
      let mix :=
        np_setitem mix [From n_mics; Upto (-1)]
          (np_diff_axis 1 (np_getitem mix [From n_mics; All])) in
      np_setitem mix [From n_mics; At (-1)] (np_array [Finite 0])
    else mix in
  X_all ← call "pra.transform.analysis"
             (pra_analysis (np_transpose mix) framesize (framesize / 2) win_a);
  X_mics ← alloc (PArray (X_mics_of X_all n_mics));
  let U_blinky := U_blinky_of X_all n_mics in
  for_each (algorithm_kwargs parameters)
    (bss_algorithm n_targets n_mics rt60 sinr seed X_mics U_blinky ref win_s)
    [].

(** [mbss_sim.one_loop] *)
Definition one_loop (args : sim_args) : M (list result) :=
  sys_path_append (base_dir parameters);;
  let n_targets := arg_n_targets args in
  let n_mics := arg_n_mics args in
  let rt60 := arg_rt60 args in
  let sinr := arg_sinr args in
  let wav_files := arg_wav_files args in
  let seed := arg_seed args in
  (* this is the underdetermined case *)
  if (n_mics <? n_targets)%Z then mret []
  else
    (* [mkl.set_num_threads(1)], when [mkl] is there, is outside this state *)
    (* set the RNG seed *)
    rng_state ← np_random_get_state;
    np_random_seed seed;;
    '(mix, ref, win_a, win_s) ←
      generate_audio n_targets n_mics rt60 sinr wav_files;
    results ← bss n_targets n_mics rt60 sinr seed mix ref win_a win_s;
    (* restore RNG former state *)
    np_random_set_state rng_state;;
    mret results.

(** [mbss_sim.generate_arguments], lines 295-310: the five nested loops. *)
Definition generate_arguments_loops (all_wav_files : list (list string))
    : M (list sim_args) :=
  for_each (n_targets_list parameters) (fun args n_targets =>
    for_each (n_mics_list parameters) (fun args n_mics =>
      (* we don't do underdetermined *)
      if (n_targets >? n_mics)%Z then mret args
      else
        for_each (rt60_list parameters).*1 (fun args rt60 =>
          for_each (sinr_list parameters) (fun args sinr =>
            for_each all_wav_files (fun args wav_files =>
              seed ← np_random_randint (2 ^ 32);
              mret (args ++ [ {| arg_n_targets := n_targets;
                                 arg_n_mics := n_mics; arg_rt60 := rt60;
                                 arg_sinr := sinr;
                                 arg_wav_files := wav_files;
                                 arg_seed := seed |} ]))
            args)
          args)
        args)
      args)
    [].

(** [mbss_sim.generate_arguments] *)
Definition generate_arguments : M (list sim_args) :=
  rng_state ← np_random_get_state;
  np_random_seed (seed parameters);;
  gen_files_seed ← np_random_randint (2 ^ 32);
  max_targets ← np_max (n_targets_list parameters);
  all_wav_files ←
    call "sampling"
      (sampling (n_repeat parameters)
         (n_interferers parameters + max_targets)
         (samples_list parameters) true gen_files_seed);
  args ← generate_arguments_loops all_wav_files;
  np_random_set_state rng_state;;
  mret args.

End Simulation.

(* ===================================================================== *)
(** * mbss_oneshot.py *)
(* ===================================================================== *)

(** [mbss_oneshot.convergence_callback], lines 303-319.  [SDR] and [SIR]
    are the two global lists; [algo] is [args.algo]. *)
Definition oneshot_convergence_callback (algo : string)
    (n_sources_target framesize : Z) (win_s ref : ndarray) (SDR SIR : loc)
    (Y : loc) : M unit :=
  Y_now ← read_array Y;
  y ← call "pra.transform.synthesis"
         (pra_synthesis Y_now framesize (framesize / 2) win_s);
  let y :=
    if negb (String.eqb algo "blinkiva")
    then reorder_by_power y
    else y in
  let m := Z.min (default 0%Z (np_shape y !! 0%nat) - framesize / 2)
                 (default 0%Z (np_shape ref !! 1%nat)) in
  '(sdr, sir, sar, perm) ←
    call "bss_eval_sources"
      (bss_eval_sources
         (np_getitem ref [Upto n_sources_target; Upto m; At 0])
         (np_transpose
            (np_getitem y [Range (framesize / 2) (m + framesize / 2);
                           Upto n_sources_target])));
  list_append SDR sdr;;
  list_append SIR sir.

(** [mbss_oneshot], lines 384-387: the order of the output channels before
    the final evaluation. *)
Definition oneshot_final_order (algo : string) (y : ndarray) : ndarray :=
  if negb (String.eqb algo "blinkiva") then reorder_by_power y else y.

(** The evaluation that both callbacks perform, with the order of the
    channels of the synthesized signal left open: [order] is applied to the
    signal before it is compared with the references. *)
Definition evaluate_in_order (order : ndarray -> ndarray) (Y : loc)
    (n_targets : Z) (SDR SIR : loc) (ref : ndarray) (framesize : Z)
    (win_s : ndarray) : M unit :=
  Y_now ← read_array Y;
  y ← call "pra.transform.synthesis"
         (pra_synthesis Y_now framesize (framesize / 2) win_s);
  let y := order y in
  let m := Z.min (default 0%Z (np_shape y !! 0%nat) - framesize / 2)
                 (default 0%Z (np_shape ref !! 1%nat)) in
  '(sdr, sir, sar, perm) ←
    call "bss_eval_sources"
      (bss_eval_sources
         (np_getitem ref [Upto n_targets; Upto m; At 0])
         (np_transpose
            (np_getitem y [Range (framesize / 2) (m + framesize / 2);
                           Upto n_targets])));
  list_append SDR sdr;;
  list_append SIR sir.

(** [mbss_oneshot], line 95: the values that [args.algo] can take. *)
Definition choices : list string :=
  ["ilrma"; "auxiva"; "auxiva-gauss"; "blinkiva-gauss"].

End Drivers.

(* ===================================================================== *)
(** * Notions used in the statements *)
(* ===================================================================== *)

Section Notions.

Context {L : Library}.

(** The list object at [l], if [l] refers to a list. *)
Definition metric_list (w : world) (l : loc) : option (list (list R)) :=
  match heap w !! l with
  | Some (PList xs) => Some xs
  | _ => None
  end.

(** The callback [cb] invoked on the estimates [Ys], one after the other. *)
Definition invocations (cb : loc -> M unit) (Ys : list loc) : M unit :=
  for_each Ys (fun _ Y => cb Y) tt.

(** An invocation that returns has put one new entry at the end of each of
    the two lists and has left their earlier entries as they were. *)
Definition appends_one (cb : loc -> M unit) (SDR SIR : loc) : Prop :=
  forall (Y : loc) (w w' : world) (xs ys : list (list R)),
    metric_list w SDR = Some xs -> metric_list w SIR = Some ys ->
    cb Y w = (Ok tt, w') ->
    exists sdr sir : list R,
      metric_list w' SDR = Some (xs ++ [sdr]) /\
      metric_list w' SIR = Some (ys ++ [sir]).

(** Starting from empty lists, [n] invocations leave [n] entries in each
    list, and the entries are in the order of the invocations: what the
    lists hold after the first [k] invocations is the first [k] entries of
    what they hold at the end. *)
Definition trace_in_order (cb : loc -> M unit) (SDR SIR : loc) : Prop :=
  forall (Ys : list loc) (w w' : world),
    metric_list w SDR = Some [] -> metric_list w SIR = Some [] ->
    invocations cb Ys w = (Ok tt, w') ->
    exists sdrs sirs : list (list R),
      metric_list w' SDR = Some sdrs /\ metric_list w' SIR = Some sirs /\
      length sdrs = length Ys /\ length sirs = length Ys /\
      forall k : nat, k <= length Ys ->
        exists wk : world,
          invocations cb (take k Ys) w = (Ok tt, wk) /\
          metric_list wk SDR = Some (take k sdrs) /\
          metric_list wk SIR = Some (take k sirs).

(** The algorithms that [one_loop] implements. *)
Definition implemented (name : string) : bool :=
  String.eqb name "auxiva" || String.eqb name "blinkiva-gauss".

(** Two outcomes that agree in everything but the state in which they leave
    the random-number generator. *)
Definition same_but_rng {A : Type} (x y : outcome A * world) : Prop :=
  x.1 = y.1 /\ heap x.2 = heap y.2 /\ calls x.2 = calls y.2 /\
  sys_path x.2 = sys_path y.2.

(** A statement that reads of the process state only the state of the
    random-number generator, as far as its outcome and the state in which
    it leaves the generator go. *)
Definition rng_only {A : Type} (m : M A) : Prop :=
  forall w1 w2 : world,
    np_random w1 = np_random w2 ->
    (m w1).1 = (m w2).1 /\ np_random (m w1).2 = np_random (m w2).2.

(** The entry that [one_loop] appends to [results] for the algorithm
    [name]. *)
Definition new_result (name : string) (n_targets n_mics : Z) (rt60 : string)
    (sinr : R) (seed : Z) (sdr_list sir_list : loc) : result :=
  {| algorithm := name; res_n_targets := n_targets; res_n_mics := n_mics;
     res_rt60 := rt60; res_sinr := sinr; res_seed := seed;
     sdr := sdr_list; sir := sir_list |}.

(** The call of the separation algorithm [name], for the two names that
    [one_loop] implements. *)
Definition separate (name : string) (X : Spectra) (U_blinky : matrix)
    (n_targets : Z) (kw : kwargs) (cb : option (loc -> M unit)) : M loc :=
  if String.eqb name "auxiva"
  then call_alg "pra.bss.auxiva" (pra_bss_auxiva X kw) cb
  else call_alg "blinkiva_gauss" (blinkiva_gauss X U_blinky n_targets kw) cb.

(** What one round of the loop of [one_loop] is said to do for an
    implemented algorithm.  With monitoring, the algorithm gets the
    callback; without, it gets [None] and the callback is called once on
    the mixture [X_mics] beforehand.  Either way the callback is called
    once on the estimate [Y] that the algorithm returns. *)
Definition evaluated_separation (parameters : Parameters)
    (n_targets n_mics : Z) (rt60 : string) (sinr : R) (seed : Z)
    (X_mics : loc) (U_blinky : matrix) (ref win_s : ndarray)
    (results : list result) (name : string) (kw : kwargs)
    : M (list result) :=
  sdr_list ← alloc (PList []);
  sir_list ← alloc (PList []);
  let evaluate : loc -> M unit := fun Y =>
    convergence_callback Y n_targets sdr_list sir_list ref
      (framesize parameters) win_s name in
  (if monitor_convergence parameters then mret tt else evaluate X_mics);;
  X ← read_array X_mics;
  Y ← separate name X U_blinky n_targets kw
        (if monitor_convergence parameters then Some evaluate else None);
  evaluate Y;;
  mret (results ++ [new_result name n_targets n_mics rt60 sinr seed
                      sdr_list sir_list]).

(** What one round is said to do for any other name: the entry is
    recorded, with the evaluation of the mixture when there is no
    monitoring, and nothing is separated. *)
Definition recorded_only (parameters : Parameters)
    (n_targets n_mics : Z) (rt60 : string) (sinr : R) (seed : Z)
    (X_mics : loc) (ref win_s : ndarray) (results : list result)
    (name : string) : M (list result) :=
  sdr_list ← alloc (PList []);
  sir_list ← alloc (PList []);
  (if monitor_convergence parameters then mret tt
   else convergence_callback X_mics n_targets sdr_list sir_list ref
          (framesize parameters) win_s name);;
  mret (results ++ [new_result name n_targets n_mics rt60 sinr seed
                      sdr_list sir_list]).


(** The entry [r] carries the condition of the argument list [args]. *)
Definition condition_of (args : sim_args) (r : result) : Prop :=
  res_n_targets r = arg_n_targets args /\ res_n_mics r = arg_n_mics args /\
  res_rt60 r = arg_rt60 args /\ res_sinr r = arg_sinr args /\
  res_seed r = arg_seed args.

(** From [w] to [w'] the store has only grown, the objects at the
    references below [n] are as they were, and so is [sys.path]. *)
Definition keeps (n : nat) (w w' : world) : Prop :=
  length (heap w) <= length (heap w') /\
  sys_path w' = sys_path w /\
  forall l : loc, l < n -> heap w' !! l = heap w !! l.

(** The two lists of the entry [r], as they are in [w]: for an implemented
    algorithm neither is empty, and without monitoring each holds two
    entries; for another name each holds the evaluation of the mixture,
    without monitoring, and nothing otherwise. *)
Definition recorded (parameters : Parameters) (w : world) (r : result)
    : Prop :=
  sdr r < length (heap w) /\ sir r < length (heap w) /\
  exists sdrs sirs : list (list R),
    metric_list w (sdr r) = Some sdrs /\ metric_list w (sir r) = Some sirs /\
    if implemented (algorithm r) then
      sdrs <> [] /\ sirs <> [] /\
      (monitor_convergence parameters = false ->
       length sdrs = 2 /\ length sirs = 2)
    else
      length sdrs = (if monitor_convergence parameters then 0 else 1) /\
      length sirs = (if monitor_convergence parameters then 0 else 1).

End Notions.

(* ===================================================================== *)
(** * A small instance of the library interface *)
(* ===================================================================== *)

(** An instance on which the drivers can be run: an array is represented by
    the number of its rows, the generator by a counter, and the separation
    algorithms hand their input to the callback once and then return it. *)
Module Small.

Definition total {A : Type} (a : A) : nat -> outcome A * nat :=
  fun r => (Ok a, r).

Definition spectra1 : Spectra :=
  {| n_frames := 1; n_freq := 1; n_chan := 3;
     bins := [[[(1, 0); (0, 1); (3, 4)]]]%R |}.

Definition separate (X : Spectra) (r : nat) : alg_step nat :=
  Callback X (S r) (fun r' => Return X (S r')).

#[local] Instance library : Library := {|
  rng_state := nat;
  ndarray := nat;
  Room := list nat;
  MicrophoneArray := nat;
  kwargs := unit;
  seeded := Z.to_nat;
  randint := fun high r => (Z.of_nat r, S r);
  randn := fun shape r => (0, S r);
  np_array := fun v => length v;
  np_c_ := fun v => length v;
  np_ones := fun shape => 1;
  np_shape := fun a => [Z.of_nat a];
  np_getitem := fun a idx => a;
  np_setitem := fun a idx v => a;
  np_scale := fun x a => a;
  np_add := fun a b => a;
  np_minus := fun a b => a;
  np_times := fun a b => a;
  np_divide := fun a b => a;
  np_sum_axis := fun axis a => a;
  np_std_axis := fun axis a => a;
  np_diff_axis := fun axis a => a;
  np_moveaxis := fun a i j => a;
  np_transpose := fun a => a;
  np_concatenate_axis1 := fun a b => a + b;
  np_vstack := fun a b => a + b;
  np_rows := fun a => replicate a 1;
  np_tolist := fun a => replicate a 1%R;
  np_take_columns := fun a idx => a;
  pra_hann := fun n => total 1;
  pra_compute_synthesis_window := fun w hop => total w;
  pra_circular_2D_array := fun c n phi r => total (Z.to_nat n);
  pra_ShoeBox := fun dim fs a m => total [];
  room_add_source := fun room loc sig => total (room ++ [sig]);
  room_sources := fun room => room;
  room_fs := fun room => 16000%Z;
  pra_MicrophoneArray := fun locs fs => total locs;
  room_add_microphone_array := fun room mics => total room;
  room_compute_rir := fun room => total room;
  room_simulate := fun room => total (length room);
  pra_analysis := fun x n hop w => total spectra1;
  pra_synthesis := fun X n hop w => total (n_chan X);
  pra_bss_auxiva := fun X kw => separate X;
  random_layout := fun dim n off s => total (Z.to_nat n);
  semi_circle_layout := fun c a d n rot s => total (Z.to_nat n);
  gm_layout := fun n c sd s => total (Z.to_nat n);
  grid_layout := fun dim n off s => total (Z.to_nat n);
  wav_read_center := fun files s => total (length files);
  sampling := fun n m lst g s => total (replicate (Z.to_nat n)
                                          (replicate (Z.to_nat m) "a.wav"));
  blinkiva_gauss := fun X U n kw => separate X;
  bss_eval_sources := fun r e => total ([1%R], [2%R], [3%R], [0%nat]);
|}.

Definition parameters : Parameters := {|
  base_dir := "/sim";
  seed := 7;
  framesize := 4;
  n_repeat := 1;
  fs := 16000;
  snr := 60;
  n_interferers := 1;
  n_blinkies := 2;
  ref_mic := 0;
  room_dim := [10; 7.5; 3]%R;
  weak_source_var := 1;
  blinky_geometry := "gm";
  rt60_list := [("0.3", {| absorption := 0.35; max_order := 17 |})];
  use_pre_emphasis := true;
  monitor_convergence := false;
  algorithm_kwargs := [("auxiva", tt); ("blinkiva-gauss", tt); ("ilrma", tt)];
  n_targets_list := [1; 2]%Z;
  n_mics_list := [1]%Z;
  sinr_list := [10]%R;
  samples_list := "samples/metadata.json";
|}.

Definition monitoring : Parameters := {|
  base_dir := "/sim";
  seed := 7;
  framesize := 4;
  n_repeat := 1;
  fs := 16000;
  snr := 60;
  n_interferers := 1;
  n_blinkies := 2;
  ref_mic := 0;
  room_dim := [10; 7.5; 3]%R;
  weak_source_var := 1;
  blinky_geometry := "grid";
  rt60_list := [("0.3", {| absorption := 0.35; max_order := 17 |})];
  use_pre_emphasis := false;
  monitor_convergence := true;
  algorithm_kwargs := [("blinkiva-gauss", tt); ("ilrma", tt)];
  n_targets_list := [1; 2]%Z;
  n_mics_list := [1]%Z;
  sinr_list := [10]%R;
  samples_list := "samples/metadata.json";
|}.

(** One microphone and one target ... *)
Definition determined : sim_args := {|
  arg_n_targets := 1; arg_n_mics := 1; arg_rt60 := "0.3"; arg_sinr := 10;
  arg_wav_files := ["a.wav"; "b.wav"]; arg_seed := 5;
|}.

(** ... and one microphone for two targets. *)
Definition underdetermined : sim_args := {|
  arg_n_targets := 2; arg_n_mics := 1; arg_rt60 := "0.3"; arg_sinr := 10;
  arg_wav_files := ["a.wav"; "b.wav"; "c.wav"]; arg_seed := 5;
|}.

Definition start : world := {|
  np_random := 42; sys_path := ["/usr/lib/python3"]; heap := []; calls := [];
|}.

(** A store with an array and two empty lists. *)
Definition listening : world := {|
  np_random := 42; sys_path := ["/usr/lib/python3"];
  heap := [PArray spectra1; PList []; PList []]; calls := [];
|}.

(** The state [start] with one more entry in [sys.path]. *)
Definition start_with_base_dir : world := {|
  np_random := 42; sys_path := ["/usr/lib/python3"; "/sim"]; heap := [];
  calls := [];
|}.

(** An argument list with one recording for two sources. *)
Definition one_recording : sim_args := {|
  arg_n_targets := 1; arg_n_mics := 1; arg_rt60 := "0.3"; arg_sinr := 10;
  arg_wav_files := ["a.wav"]; arg_seed := 5;
|}.

(** The runs of the drivers and of the callback on this instance. *)
Definition callback_run : outcome unit * world :=
  Eval vm_compute in
    convergence_callback 0 1 1 2 0 4 0 "auxiva" listening.

Definition invocations_run : outcome unit * world :=
  Eval vm_compute in
    invocations (fun Y => convergence_callback Y 1 1 2 0 4 0 "auxiva")
      [0; 0; 0] listening.

Definition determined_run : outcome (list result) * world :=
  Eval vm_compute in one_loop parameters determined start.

Definition monitoring_run : outcome (list result) * world :=
  Eval vm_compute in one_loop monitoring determined start.

Definition underdetermined_run : outcome (list result) * world :=
  Eval vm_compute in one_loop parameters underdetermined start.

Definition one_recording_run : outcome (list result) * world :=
  Eval vm_compute in one_loop parameters one_recording start.

Definition arguments_run : outcome (list sim_args) * world :=
  Eval vm_compute in generate_arguments parameters start.

End Small.

(* ===================================================================== *)
(** * Notions for the further properties *)
(* ===================================================================== *)

(** The bounds of a slice on an axis of length [n], as NumPy and Python
    normalize them: a negative bound counts from the end, and a bound
    outside the axis is moved to its nearer end. *)
Definition slice_bound (i n : Z) : Z :=
  if (i <? 0)%Z then Z.max 0 (i + n) else Z.min i n.

(** The number of positions that a slice selects on an axis of length
    [n]; a single index and a new axis are not slices. *)
Definition slice_length (i : index) (n : Z) : option Z :=
  match i with
  | All => Some n
  | Upto stop => Some (slice_bound stop n)
  | From start => Some (n - slice_bound start n)%Z
  | Range start stop =>
      Some (Z.max 0 (slice_bound stop n - slice_bound start n))
  | At _ | NewAxis => None
  end.

(** [m = np.minimum(y.shape[0] - framesize // 2, ref.shape[1])], as both
    callbacks compute it from the lengths of the synthesized signal and of
    the references. *)
Definition evaluation_length (framesize y_len ref_len : Z) : Z :=
  Z.min (y_len - framesize / 2) ref_len.

Section More_notions.

Context {L : Library}.

(** A condition of the simulation: [n_targets], [n_mics], the key of the
    reverberation time, [sinr] and the files of the recordings. *)
Definition condition : Type := (Z * Z * string * R * list string)%type.

(** The conditions that the five nested loops of [generate_arguments] go
    through, in the order of the loops, for the file lists that [sampling]
    returned. *)
Definition conditions (parameters : Parameters)
    (all_wav_files : list (list string)) : list condition :=
  flat_map (fun n_targets =>
    flat_map (fun n_mics =>
      if (n_targets >? n_mics)%Z then []
      else
        flat_map (fun rt60 =>
          flat_map (fun sinr =>
            map (fun wav_files => (n_targets, n_mics, rt60, sinr, wav_files))
                all_wav_files)
            (sinr_list parameters))
          (rt60_list parameters).*1)
      (n_mics_list parameters))
    (n_targets_list parameters).

(** The argument list for a condition and a seed. *)
Definition with_seed (c : condition) (seed : Z) : sim_args :=
  let '(n_targets, n_mics, rt60, sinr, wav_files) := c in
  {| arg_n_targets := n_targets; arg_n_mics := n_mics; arg_rt60 := rt60;
     arg_sinr := sinr; arg_wav_files := wav_files; arg_seed := seed |}.

(** [n] draws of [int(np.random.randint(2 ** 32, dtype=np.uint32))] in a
    row, from the state [r] of the generator, and the state after them. *)
Fixpoint draws (n : nat) (r : rng_state) : list Z * rng_state :=
  match n with
  | O => ([], r)
  | S n' =>
      let '(x, r1) := randint (2 ^ 32) r in
      let '(xs, r2) := draws n' r1 in
      (x :: xs, r2)
  end.

(** The number of pairs of [n_targets_list] and [n_mics_list] with no more
    targets than microphones. *)
Definition determined_pairs (parameters : Parameters) : nat :=
  length
    (flat_map (fun n_targets =>
                 filter (fun n_mics => (n_targets <= n_mics)%Z)
                        (n_mics_list parameters))
              (n_targets_list parameters)).

(** A statement that leaves the part [part] of the process state as it
    finds it, whether it returns or raises. *)
Definition leaves {T A : Type} (part : world -> T) (m : M A) : Prop :=
  forall w : world, part (m w).2 = part w.

(** The references of the list objects of the entries of [results]. *)
Definition list_objects (results : list result) : list loc :=
  flat_map (fun r => [sdr r; sir r]) results.

(** One round of the innermost loop of [generate_arguments], lines 306-310:
    draw the seed, append the argument list. *)
Definition emit (args : list sim_args) (c : condition)
    : M (list sim_args) :=
  seed ← np_random_randint (2 ^ 32);
  mret (args ++ [with_seed c seed]).

End More_notions.

(** Further runs on the small instance. *)
Module Cases.

Import Small.

#[local] Existing Instance library.

(** The callback with one list for both of its lists ... *)
Definition aliased_run : outcome unit * world :=
  Eval vm_compute in
    convergence_callback (L := library) 0 1 1 1 0 4 0 "auxiva" listening.

(** ... and the callback given a list where it expects the spectra. *)
Definition misdirected_run : outcome unit * world :=
  Eval vm_compute in
    convergence_callback (L := library) 1 1 1 2 0 4 0 "auxiva" listening.

(** The parameters of [Small] with an empty list of numbers of targets. *)
Definition no_targets : Parameters := {|
  base_dir := "/sim";
  seed := 7;
  framesize := 4;
  n_repeat := 1;
  fs := 16000;
  snr := 60;
  n_interferers := 1;
  n_blinkies := 2;
  ref_mic := 0;
  room_dim := [10; 7.5; 3]%R;
  weak_source_var := 1;
  blinky_geometry := "gm";
  rt60_list := [("0.3", {| absorption := 0.35; max_order := 17 |})];
  use_pre_emphasis := true;
  monitor_convergence := false;
  algorithm_kwargs := [("auxiva", tt)];
  n_targets_list := [];
  n_mics_list := [1]%Z;
  sinr_list := [10]%R;
  samples_list := "samples/metadata.json";
|}.

(** An argument list whose reverberation time is not in the parameters. *)
Definition unknown_rt60 : sim_args := {|
  arg_n_targets := 1; arg_n_mics := 1; arg_rt60 := "0.5"; arg_sinr := 10;
  arg_wav_files := ["a.wav"; "b.wav"]; arg_seed := 5;
|}.

Definition unknown_rt60_run : outcome (list result) * world :=
  Eval vm_compute in one_loop (L := library) parameters unknown_rt60 start.

(** An argument list without a target. *)
Definition no_target : sim_args := {|
  arg_n_targets := 0; arg_n_mics := 1; arg_rt60 := "0.3"; arg_sinr := 10;
  arg_wav_files := ["a.wav"]; arg_seed := 5;
|}.

Definition no_target_run : outcome (list result) * world :=
  Eval vm_compute in one_loop (L := library) parameters no_target start.

End Cases.

(* ===================================================================== *)
(** * Properties of the signal levels and of the blinky power *)
(* ===================================================================== *)

Section Levels.

Local Open Scope R_scope.

Lemma db_to_ratio_pos (x : R) : 0 < db_to_ratio x.
Proof. unfold db_to_ratio, Rpower. apply exp_pos. Qed.

Lemma np_sum_nonneg (v : list R) : Forall (Rle 0) v -> 0 <= np_sum v.
Proof.
  unfold np_sum. induction 1 as [|x v Hx _ IH]; simpl; lra.
Qed.

Lemma np_sum_squares_nonneg (v : list R) :
  0 <= np_sum (map (fun s => s ^ 2) v).
Proof.
  apply np_sum_nonneg, Forall_forall. intros x Hx.
  apply list_elem_of_In, in_map_iff in Hx as (s & <- & _).
  apply pow2_ge_0.
Qed.

Lemma np_sqrt_nonneg (r : R) : 0 <= r -> nonneg_real (np_sqrt (Finite r)).
Proof.
  intros Hr. exists (sqrt r). simpl.
  destruct (Rlt_dec r 0) as [Hneg|_]; [lra|].
  split; [reflexivity | apply sqrt_pos].
Qed.

Lemma np_div_int_nonneg (r : R) (n : Z) :
  0 <= r -> (1 <= n)%Z ->
  exists q, np_div_int (Finite r) n = Finite q /\ 0 <= q.
Proof.
  intros Hr Hn. exists (r / IZR n). simpl.
  destruct (Z.eqb_spec n 0) as [->|_]; [lia|].
  split; [reflexivity|].
  assert (0 < IZR n) by (apply IZR_lt; lia).
  apply Rmult_le_pos; [assumption|].
  left. now apply Rinv_0_lt_compat.
Qed.

Lemma sim_sigma_n_finite (snr : R) (sources_var : list R) :
  Forall (Rle 0) sources_var ->
  sim_sigma_n snr sources_var
  = Finite (sqrt (db_to_ratio snr * np_sum sources_var)).
Proof.
  intros Hv. unfold sim_sigma_n. simpl.
  destruct (Rlt_dec _ 0) as [Hneg|_]; [|reflexivity].
  pose proof (db_to_ratio_pos snr). pose proof (np_sum_nonneg _ Hv). nra.
Qed.

(** The argument of the outer square root in [one_loop], before the
    division: a real number that the floor keeps from being negative. *)
Lemma sim_floored_nonneg (snr sinr : R) (sources_var : list R) :
  Forall (Rle 0) sources_var ->
  exists d,
    np_maximum (Finite 0)
      (np_sub (Finite (db_to_ratio sinr * np_sum sources_var))
              (np_square (sim_sigma_n snr sources_var))) = Finite d
    /\ 0 <= d.
Proof.
  intros Hv. rewrite sim_sigma_n_finite by assumption. simpl.
  eexists. split; [reflexivity | apply Rmax_l].
Qed.

(** With no interferer the division is by zero and [sigma_i] is [nan] or
    [inf]. *)
Lemma sim_sigma_i_no_interferer (snr sinr : R) (sources_var : list R) :
  Forall (Rle 0) sources_var ->
  sim_sigma_i snr sinr sources_var 0 = NaN \/
  sim_sigma_i snr sinr sources_var 0 = PosInf.
Proof.
  intros Hv. unfold sim_sigma_i.
  destruct (sim_floored_nonneg snr sinr _ Hv) as (d & -> & Hd). simpl.
  destruct (Rlt_dec 0 d); [now right|].
  destruct (Rlt_dec d 0); [lra | now left].
Qed.


(** C8.  In [one_loop] the interference scale [sigma_i] is a nonnegative
    real number, never [nan], for every [snr] and [sinr], given at least one
    interferer and source variances that are not negative: the argument of
    the square root is floored at zero before the root is taken.  In
    [callback_mix] of [mbss_oneshot] the same holds when [n_src > n_tgt].
    Both preconditions are needed: with [n_interferers = 0], or with
    [n_src = n_tgt], the value is not a real number. *)
Theorem sigma_i_nonnegative (snr sinr sir : R) (sources_var src_std : list R)
    (n_interferers n_src n_tgt : Z) :
  ((1 <= n_interferers)%Z -> Forall (Rle 0) sources_var ->
   nonneg_real (sim_sigma_i snr sinr sources_var n_interferers)) /\
  ((n_tgt < n_src)%Z -> nonneg_real (mix_sigma_i sir src_std n_src n_tgt)) /\
  (Forall (Rle 0) sources_var ->
   ~ nonneg_real (sim_sigma_i snr sinr sources_var 0)) /\
  ~ nonneg_real (mix_sigma_i sir src_std n_tgt n_tgt).
Proof.
  repeat split.
  - intros Hn Hv. unfold sim_sigma_i.
    destruct (sim_floored_nonneg snr sinr _ Hv) as (d & -> & Hd).
    destruct (np_div_int_nonneg d n_interferers Hd Hn) as (q & -> & Hq).
    now apply np_sqrt_nonneg.
  - intros Hlt. unfold mix_sigma_i.
    pose proof (db_to_ratio_pos sir) as Hc.
    pose proof (np_sum_squares_nonneg src_std) as HS.
    destruct (np_div_int_nonneg
                (db_to_ratio sir * np_sum (map (fun s => s ^ 2) src_std))
                (n_src - n_tgt)) as (q & Hq & Hq0); [nra | lia |].
    cbv zeta. rewrite Hq. now apply np_sqrt_nonneg.
  - intros Hv (r & Hr & _).
    destruct (sim_sigma_i_no_interferer snr sinr _ Hv) as [E|E];
      rewrite E in Hr; discriminate.
  - intros (r & Hr & _). unfold mix_sigma_i in Hr.
    rewrite Z.sub_diag in Hr. simpl in Hr.
    repeat (destruct (Rlt_dec _ _) in Hr; simpl in Hr); discriminate.
Qed.

(** The levels of the script: [SNR = 60], [SIR = 10], four targets of which
    the first has half the power, ten interferers. *)
Lemma sigma_i_nonnegative_witness :
  nonneg_real (sim_sigma_i 60 10 [0.5; 1; 1; 1] 10) /\
  nonneg_real (mix_sigma_i 10 [sqrt 0.5; 1; 1; 1] 14 4).
Proof.
  pose proof (sigma_i_nonnegative 60 10 10 [0.5; 1; 1; 1] [sqrt 0.5; 1; 1; 1]
                10 14 4) as (Hsim & Hmix & _).
  split.
  - apply Hsim; [lia | repeat constructor; lra].
  - apply Hmix; lia.
Defined.

(* --------------------------------------------------------------------- *)
(** ** The blinky power *)

Lemma zip_with_Rplus_nonneg (u v : list R) :
  Forall (Rle 0) u -> Forall (Rle 0) v -> Forall (Rle 0) (zip_with Rplus u v).
Proof.
  intros Hu. revert v.
  induction Hu as [|a u Ha _ IH]; intros [|b v] Hv; simpl; try constructor.
  - inversion Hv; subst. lra.
  - inversion Hv; subst. now apply IH.
Qed.

Lemma sum_rows_nonneg (width : nat) (rows : matrix) :
  matrix_nonneg rows ->
  Forall (Rle 0) (foldr (zip_with Rplus) (replicate width 0) rows).
Proof.
  induction 1 as [|row rows Hrow _ IH]; simpl.
  - apply Forall_replicate. lra.
  - now apply zip_with_Rplus_nonneg.
Qed.

Lemma sum_rows_length (width : nat) (rows : matrix) :
  Forall (fun row => length row = width) rows ->
  length (foldr (zip_with Rplus) (replicate width 0) rows) = width.
Proof.
  induction 1 as [|row rows Hrow _ IH]; simpl.
  - apply length_replicate.
  - rewrite length_zip_with, IH, Hrow. apply Nat.min_id.
Qed.

Lemma power_sum_axis1_nonneg (X : Spectra) :
  matrix_nonneg (power_sum_axis1 X).
Proof.
  unfold matrix_nonneg, power_sum_axis1.
  apply Forall_map, Forall_forall. intros frame _. simpl.
  apply sum_rows_nonneg, Forall_map, Forall_forall. intros row _. simpl.
  apply Forall_map, Forall_forall. intros z _. simpl.
  apply pow2_ge_0.
Qed.

Lemma power_sum_axis1_shape (X : Spectra) :
  Spectra_wf X -> has_shape (power_sum_axis1 X) (n_frames X) (n_chan X).
Proof.
  intros [Hlen Hframes]. split.
  - unfold power_sum_axis1. now rewrite length_map.
  - unfold power_sum_axis1. apply Forall_map.
    eapply Forall_impl; [exact Hframes|].
    intros frame [_ Hrows]. simpl.
    apply sum_rows_length, Forall_map.
    eapply Forall_impl; [exact Hrows|].
    intros row Hrow. simpl. now rewrite length_map.
Qed.

Lemma chan_drop_wf (n : nat) (X : Spectra) :
  Spectra_wf X -> Spectra_wf (chan_drop n X).
Proof.
  intros [Hlen Hframes]. split; simpl.
  - now rewrite length_map.
  - apply Forall_map. eapply Forall_impl; [exact Hframes|].
    intros frame [Hf Hrows]. simpl. split.
    + now rewrite length_map.
    + apply Forall_map. eapply Forall_impl; [exact Hrows|].
      intros row Hrow. simpl. now rewrite length_drop, Hrow.
Qed.

Lemma np_dot_nonneg (A B : matrix) (width : nat) :
  matrix_nonneg A -> matrix_nonneg B -> matrix_nonneg (np_dot A B width).
Proof.
  intros HA HB. unfold matrix_nonneg, np_dot.
  apply Forall_map. eapply Forall_impl; [exact HA|].
  intros a_row Ha. simpl. apply sum_rows_nonneg.
  clear HA. revert B HB.
  induction Ha as [|a a_row Ha0 _ IH]; intros [|b_row B] HB; simpl;
    try constructor.
  - inversion HB; subst. apply Forall_map.
    eapply Forall_impl; [eassumption|]. intros b Hb. simpl.
    now apply Rmult_le_pos.
  - inversion HB; subst. now apply IH.
Qed.

(** C4.  The blinky power [U_blinky] that both drivers hand to the
    estimator has shape [(n_frames, n_blinkies)] and no negative entry,
    whatever the spectra [X_all] of the [n_mics + n_blinkies] channels are:
    it is a sum over the frequency bins of squared magnitudes.  The product
    [U_fake] of the debug path of [mbss_oneshot], which the script as
    written never selects, has no negative entry when its two factors have
    none. *)
Theorem U_blinky_nonnegative (X_all : Spectra) (n_mics : Z)
    (n_blinkies : nat) (U_fake R_real G_real : matrix) :
  Spectra_wf X_all ->
  n_chan X_all = (Z.to_nat n_mics + n_blinkies)%nat ->
  (has_shape (U_blinky_of X_all n_mics) (n_frames X_all) n_blinkies /\
   matrix_nonneg (U_blinky_of X_all n_mics)) /\
  oneshot_U_blinky U_fake X_all n_mics = U_blinky_of X_all n_mics /\
  (matrix_nonneg R_real -> matrix_nonneg G_real ->
   matrix_nonneg (U_fake_of R_real G_real n_blinkies)).
Proof.
  intros Hwf Hchan. repeat split.
  - unfold U_blinky_of, power_sum_axis1. simpl. rewrite !length_map.
    apply Hwf.
  - pose proof (power_sum_axis1_shape _ (chan_drop_wf (Z.to_nat n_mics) _ Hwf))
      as [_ Hrows].
    simpl in Hrows. unfold U_blinky_of.
    replace n_blinkies with (n_chan X_all - Z.to_nat n_mics)%nat by lia.
    exact Hrows.
  - apply power_sum_axis1_nonneg.
  - apply np_dot_nonneg.
Qed.

(** One frame, one frequency bin, one microphone and two blinkies. *)
Lemma U_blinky_nonnegative_witness :
  has_shape (U_blinky_of Small.spectra1 1) 1 2 /\
  matrix_nonneg (U_blinky_of Small.spectra1 1).
Proof.
  apply (U_blinky_nonnegative Small.spectra1 1 2 [] [] []).
  - split; [reflexivity|].
    repeat (constructor; simpl; try reflexivity).
  - reflexivity.
Defined.

End Levels.

(* ===================================================================== *)
(** * Properties of the callbacks *)
(* ===================================================================== *)

Section Callbacks.

Context {L : Library}.

Lemma bind_ok {A B : Type} (m : M A) (f : A -> M B) (w w' : world) (b : B) :
  (m ≫= f) w = (Ok b, w') ->
  exists (a : A) (w1 : world), m w = (Ok a, w1) /\ f a w1 = (Ok b, w').
Proof.
  unfold mbind, M_bind. destruct (m w) as [[a|e] w1]; intros H.
  - now exists a, w1.
  - discriminate.
Qed.

Lemma bind_run {A B : Type} (m : M A) (f : A -> M B) (w w1 : world) (a : A) :
  m w = (Ok a, w1) -> (m ≫= f) w = f a w1.
Proof. unfold mbind, M_bind. now intros ->. Qed.

(** What an evaluation that returns has done to the store. *)
Lemma evaluate_in_order_ok (order : ndarray -> ndarray) (Y : loc)
    (n_targets : Z) (SDR SIR : loc) (ref : ndarray) (framesize : Z)
    (win_s : ndarray) (w w' : world) :
  evaluate_in_order order Y n_targets SDR SIR ref framesize win_s w
  = (Ok tt, w') ->
  exists (a : Spectra) (xs ys : list (list R)) (sdr sir : list R),
    heap w !! Y = Some (PArray a) /\
    heap w !! SDR = Some (PList xs) /\
    <[SDR := PList (xs ++ [sdr])]> (heap w) !! SIR = Some (PList ys) /\
    heap w' = <[SIR := PList (ys ++ [sir])]>
                (<[SDR := PList (xs ++ [sdr])]> (heap w)) /\
    sys_path w' = sys_path w.
Proof.
  unfold evaluate_in_order, mbind, M_bind, read_array, call, list_append.
  destruct (heap w !! Y) as [[a|]|] eqn:HY; try discriminate.
  destruct (pra_synthesis _ _ _ _ _) as [[y|e] r]; try discriminate.
  destruct (bss_eval_sources _ _ _) as [[[[[sdr sir] sar] perm]|e] r'];
    try discriminate.
  simpl.
  destruct (heap w !! SDR) as [[|xs]|] eqn:HSDR; try discriminate.
  simpl.
  destruct (_ !! SIR) as [[|ys]|] eqn:HSIR; try discriminate.
  intros [= <-]. simpl.
  exists a, xs, ys, sdr, sir. auto.
Qed.

(** What any evaluation, returning or raising, leaves untouched. *)
Lemma evaluate_in_order_frame (order : ndarray -> ndarray) (Y : loc)
    (n_targets : Z) (SDR SIR : loc) (ref : ndarray) (framesize : Z)
    (win_s : ndarray) (w : world) :
  let w' :=
    (evaluate_in_order order Y n_targets SDR SIR ref framesize win_s w).2 in
  heap w' !! Y = heap w !! Y /\
  (forall l : loc, l <> SDR -> l <> SIR -> heap w' !! l = heap w !! l) /\
  length (heap w') = length (heap w) /\
  sys_path w' = sys_path w.
Proof.
  unfold evaluate_in_order, mbind, M_bind, read_array, call, list_append.
  destruct (heap w !! Y) as [[a|]|] eqn:HY; simpl; auto.
  destruct (pra_synthesis _ _ _ _ _) as [[y|e] r]; simpl; auto.
  destruct (bss_eval_sources _ _ _) as [[[[[sdr sir] sar] perm]|e] r'];
    simpl; auto.
  assert (HYSDR : forall xs, heap w !! SDR = Some (PList xs) -> Y <> SDR)
    by (intros xs H ->; congruence).
  destruct (heap w !! SDR) as [[|xs]|] eqn:HSDR; simpl; auto.
  specialize (HYSDR xs eq_refl).
  destruct (_ !! SIR) as [[|ys]|] eqn:HSIR; simpl.
  - rewrite list_lookup_insert_ne, length_insert by auto.
    repeat split; auto. intros l H1 _. now rewrite list_lookup_insert_ne.
  - assert (Y <> SIR).
    { intros ->. rewrite list_lookup_insert_ne in HSIR by auto. congruence. }
    rewrite !list_lookup_insert_ne, !length_insert by auto.
    repeat split; auto. intros l H1 H2. now rewrite !list_lookup_insert_ne.
  - rewrite list_lookup_insert_ne, length_insert by auto.
    repeat split; auto. intros l H1 _. now rewrite list_lookup_insert_ne.
Qed.

(** Both callbacks are this evaluation, each with its own rule for the
    order of the channels. *)
Lemma convergence_callback_unfold (Y : loc) (n_targets : Z) (SDR SIR : loc)
    (ref : ndarray) (framesize : Z) (win_s : ndarray) (algo_name : string) :
  convergence_callback Y n_targets SDR SIR ref framesize win_s algo_name
  = evaluate_in_order
      (if String.prefix "blinkiva" algo_name then fun y => y
       else reorder_by_power)
      Y n_targets SDR SIR ref framesize win_s.
Proof.
  unfold convergence_callback, evaluate_in_order.
  now destruct (String.prefix "blinkiva" algo_name).
Qed.

Lemma oneshot_convergence_callback_unfold (algo : string)
    (n_sources_target framesize : Z) (win_s ref : ndarray) (SDR SIR Y : loc) :
  oneshot_convergence_callback algo n_sources_target framesize win_s ref
    SDR SIR Y
  = evaluate_in_order
      (if String.eqb algo "blinkiva" then fun y => y else reorder_by_power)
      Y n_sources_target SDR SIR ref framesize win_s.
Proof.
  unfold oneshot_convergence_callback, evaluate_in_order.
  now destruct (String.eqb algo "blinkiva").
Qed.

(** C5.  Neither convergence callback changes the array [Y] of separated
    spectra that it is given, whether it returns or raises: [Y] holds after
    the call what it held before.  Of the objects of the store only the two
    lists [SDR] and [SIR] can differ afterwards, no object is created,
    [sys.path] is as before, and a call that returns has changed the two
    lists by appending one entry to each. *)
Theorem convergence_callback_preserves_Y (Y : loc) (n_targets : Z)
    (SDR SIR : loc) (ref : ndarray) (framesize : Z) (win_s : ndarray)
    (algo_name : string) (w : world) :
  let unchanged (w' : world) : Prop :=
    heap w' !! Y = heap w !! Y /\
    (forall l : loc, l <> SDR -> l <> SIR -> heap w' !! l = heap w !! l) /\
    length (heap w') = length (heap w) /\
    sys_path w' = sys_path w in
  let appended (w' : world) : Prop :=
    exists (xs ys : list (list R)) (sdr sir : list R),
      heap w !! SDR = Some (PList xs) /\
      <[SDR := PList (xs ++ [sdr])]> (heap w) !! SIR = Some (PList ys) /\
      heap w' = <[SIR := PList (ys ++ [sir])]>
                  (<[SDR := PList (xs ++ [sdr])]> (heap w)) in
  let sim :=
    convergence_callback Y n_targets SDR SIR ref framesize win_s algo_name w in
  let oneshot :=
    oneshot_convergence_callback algo_name n_targets framesize win_s ref
      SDR SIR Y w in
  (unchanged sim.2 /\ (sim.1 = Ok tt -> appended sim.2)) /\
  (unchanged oneshot.2 /\ (oneshot.1 = Ok tt -> appended oneshot.2)).
Proof.
  cbv zeta.
  rewrite convergence_callback_unfold, oneshot_convergence_callback_unfold.
  split; (split; [apply evaluate_in_order_frame|]).
  all: intros Hok;
    match goal with
    | H : (?c).1 = Ok tt |- _ =>
        destruct c as [o w'] eqn:Hrun; simpl in H; subst o;
        apply evaluate_in_order_ok in Hrun
          as (a & xs & ys & sdr & sir & _ & H1 & H2 & H3 & _)
    end;
    simpl; eauto 10.
Qed.

Lemma appends_one_evaluate (order : ndarray -> ndarray) (n_targets : Z)
    (SDR SIR : loc) (ref : ndarray) (framesize : Z) (win_s : ndarray) :
  SDR <> SIR ->
  appends_one
    (fun Y => evaluate_in_order order Y n_targets SDR SIR ref framesize win_s)
    SDR SIR.
Proof.
  intros Hne Y w w' xs ys HSDR HSIR Hrun.
  apply evaluate_in_order_ok in Hrun
    as (a & xs' & ys' & sdr & sir & _ & H1 & H2 & H3 & _).
  unfold metric_list in *. rewrite H3.
  rewrite H1 in HSDR. injection HSDR as ->.
  rewrite list_lookup_insert_ne in H2 by assumption.
  rewrite H2 in HSIR. injection HSIR as ->.
  exists sdr, sir. split.
  - rewrite list_lookup_insert_ne by auto.
    rewrite list_lookup_insert_eq; [reflexivity|].
    now apply lookup_lt_Some in H1.
  - rewrite list_lookup_insert_eq; [reflexivity|].
    rewrite length_insert. now apply lookup_lt_Some in H2.
Qed.

Lemma invocations_cons (cb : loc -> M unit) (Y : loc) (Ys : list loc)
    (w : world) :
  invocations cb (Y :: Ys) w = (cb Y;; invocations cb Ys) w.
Proof.
  unfold invocations. simpl. unfold mbind, M_bind.
  now destruct (cb Y w) as [[[]|e] w1].
Qed.

(** Invocations in a row, from lists that already hold [xs] and [ys]. *)
Lemma appends_one_trace (cb : loc -> M unit) (SDR SIR : loc) :
  appends_one cb SDR SIR ->
  forall (Ys : list loc) (w w' : world) (xs ys : list (list R)),
    metric_list w SDR = Some xs -> metric_list w SIR = Some ys ->
    invocations cb Ys w = (Ok tt, w') ->
    exists sdrs sirs : list (list R),
      metric_list w' SDR = Some (xs ++ sdrs) /\
      metric_list w' SIR = Some (ys ++ sirs) /\
      length sdrs = length Ys /\ length sirs = length Ys /\
      forall k : nat, k <= length Ys ->
        exists wk : world,
          invocations cb (take k Ys) w = (Ok tt, wk) /\
          metric_list wk SDR = Some (xs ++ take k sdrs) /\
          metric_list wk SIR = Some (ys ++ take k sirs).
Proof.
  intros Hcb. induction Ys as [|Y Ys IH]; intros w w' xs ys HSDR HSIR Hrun.
  - injection Hrun as <-. exists [], []. rewrite !app_nil_r.
    repeat split; auto. intros k Hk. exists w.
    rewrite !take_nil, !app_nil_r. auto.
  - rewrite invocations_cons in Hrun.
    apply bind_ok in Hrun as ([] & w1 & Hfirst & Hrest).
    destruct (Hcb Y w w1 xs ys HSDR HSIR Hfirst) as (sdr & sir & H1 & H2).
    destruct (IH w1 w' _ _ H1 H2 Hrest)
      as (sdrs & sirs & H3 & H4 & H5 & H6 & Hprefix).
    exists (sdr :: sdrs), (sir :: sirs).
    rewrite <- !app_assoc in H3, H4. simpl in H3, H4.
    repeat split; simpl; auto.
    intros [|k] Hk.
    + exists w. simpl. rewrite !app_nil_r. auto.
    + destruct (Hprefix k) as (wk & Hk1 & Hk2 & Hk3); [simpl in Hk; lia|].
      exists wk. simpl. rewrite invocations_cons.
      rewrite (bind_run _ _ _ _ _ Hfirst).
      rewrite <- !app_assoc in Hk2, Hk3. auto.
Qed.

(** C6.  The convergence trace is append-only.  For two distinct lists
    [SDR] and [SIR], every invocation of either convergence callback that
    returns appends one entry to each list and leaves the earlier entries
    as they were; so after [n] invocations, starting from empty lists, each
    list holds [n] entries, in the order of the invocations. *)
Theorem convergence_trace_append_only (n_targets : Z) (SDR SIR : loc)
    (ref : ndarray) (framesize : Z) (win_s : ndarray) (algo_name : string) :
  SDR <> SIR ->
  let sim := fun Y : loc =>
    convergence_callback Y n_targets SDR SIR ref framesize win_s algo_name in
  let oneshot :=
    oneshot_convergence_callback algo_name n_targets framesize win_s ref
      SDR SIR in
  (appends_one sim SDR SIR /\ trace_in_order sim SDR SIR) /\
  (appends_one oneshot SDR SIR /\ trace_in_order oneshot SDR SIR).
Proof.
  intros Hne sim oneshot.
  assert (Hsim : appends_one sim SDR SIR).
  { intros Y w w' xs ys. unfold sim. rewrite convergence_callback_unfold.
    now apply appends_one_evaluate. }
  assert (Hone : appends_one oneshot SDR SIR).
  { intros Y w w' xs ys. unfold oneshot.
    rewrite oneshot_convergence_callback_unfold.
    now apply appends_one_evaluate. }
  split; (split; [assumption|]).
  all: intros Ys w w' HSDR HSIR Hrun.
  - exact (appends_one_trace _ _ _ Hsim Ys w w' [] [] HSDR HSIR Hrun).
  - exact (appends_one_trace _ _ _ Hone Ys w w' [] [] HSDR HSIR Hrun).
Qed.

(* --------------------------------------------------------------------- *)
(** ** The order of the channels *)

Lemma argsort_insert_perm (v : list R) (i : nat) (l : list nat) :
  argsort_insert v i l ≡ₚ i :: l.
Proof.
  induction l as [|j l IH]; simpl; [reflexivity|].
  destruct (Rle_dec _ _); [reflexivity|].
  rewrite IH. apply Permutation_swap.
Qed.

Lemma argsort_insert_sorted (v : list R) (i : nat) (l : list nat) :
  StronglySorted (fun a b => (nth a v 0 <= nth b v 0)%R) l ->
  StronglySorted (fun a b => (nth a v 0 <= nth b v 0)%R)
    (argsort_insert v i l).
Proof.
  induction 1 as [|j l Hl IH Hj]; simpl.
  - repeat constructor.
  - destruct (Rle_dec _ _) as [Hle|Hgt].
    + constructor; [now constructor|].
      constructor; [assumption|].
      eapply Forall_impl; [exact Hj|]. intros b Hb. simpl in *. lra.
    + constructor; [assumption|].
      rewrite argsort_insert_perm. constructor; [lra | assumption].
Qed.

Lemma np_argsort_perm (v : list R) : np_argsort v ≡ₚ seq 0 (length v).
Proof.
  unfold np_argsort. induction (seq 0 (length v)) as [|i l IH]; simpl.
  - reflexivity.
  - now rewrite argsort_insert_perm, IH.
Qed.

Lemma np_argsort_sorted (v : list R) :
  StronglySorted (fun a b => (nth a v 0 <= nth b v 0)%R) (np_argsort v).
Proof.
  unfold np_argsort. induction (seq 0 (length v)) as [|i l IH]; simpl.
  - constructor.
  - now apply argsort_insert_sorted.
Qed.

Lemma StronglySorted_snoc {A : Type} (rel : A -> A -> Prop) (l : list A)
    (a : A) :
  StronglySorted rel l -> Forall (fun b => rel b a) l ->
  StronglySorted rel (l ++ [a]).
Proof.
  induction 1 as [|b l Hl IH Hb]; intros Ha; simpl.
  - repeat constructor.
  - apply Forall_cons in Ha as [Hba Ha].
    constructor; [now apply IH|].
    apply Forall_app. split; [assumption | now repeat constructor].
Qed.

Lemma StronglySorted_rev {A : Type} (rel : A -> A -> Prop) (l : list A) :
  StronglySorted rel l -> StronglySorted (fun a b => rel b a) (rev l).
Proof.
  induction 1 as [|a l Hl IH Ha]; simpl.
  - constructor.
  - apply StronglySorted_snoc; [assumption|].
    now apply Forall_rev.
Qed.

(** The order that [reorder_by_power] gives to the channels: every channel
    once, and the standard deviations along it never increase. *)
Lemma new_ord_decreasing (y : ndarray) :
  let stds := np_tolist (np_std_axis 0 y) in
  new_ord_of y ≡ₚ seq 0 (length stds) /\
  StronglySorted (fun a b => (nth b stds 0 <= nth a stds 0)%R) (new_ord_of y).
Proof.
  unfold new_ord_of. split.
  - now rewrite <- Permutation_rev, np_argsort_perm.
  - apply StronglySorted_rev, np_argsort_sorted.
Qed.

(** C10.  Before the evaluation the channels of the synthesized signal are
    put in the order of decreasing standard deviation unless the algorithm
    counts as a blinky algorithm, and the two drivers decide that
    differently: the callback of [mbss_sim] keeps the order of the separator
    for every name that starts with [blinkiva], while [mbss_oneshot], in its
    callback and before its final evaluation, keeps it only for the name
    [blinkiva] itself.  So the output of [blinkiva-gauss] is reordered in
    [mbss_oneshot] and not in [mbss_sim]; indeed every algorithm that
    [mbss_oneshot] accepts is reordered. *)
Theorem reordering_predicates_differ (Y : loc) (n_targets : Z)
    (SDR SIR : loc) (ref : ndarray) (framesize : Z) (win_s : ndarray)
    (name : string) (y : ndarray) :
  let keep : ndarray -> ndarray := fun y => y in
  let stds := np_tolist (np_std_axis 0 y) in
  (* the two rules *)
  (convergence_callback Y n_targets SDR SIR ref framesize win_s name
   = evaluate_in_order
       (if String.prefix "blinkiva" name then keep else reorder_by_power)
       Y n_targets SDR SIR ref framesize win_s /\
   oneshot_convergence_callback name n_targets framesize win_s ref SDR SIR Y
   = evaluate_in_order
       (if String.eqb name "blinkiva" then keep else reorder_by_power)
       Y n_targets SDR SIR ref framesize win_s /\
   oneshot_final_order name y
   = (if String.eqb name "blinkiva" then keep else reorder_by_power) y) /\
  (* blinkiva-gauss *)
  (convergence_callback Y n_targets SDR SIR ref framesize win_s
     "blinkiva-gauss"
   = evaluate_in_order keep Y n_targets SDR SIR ref framesize win_s /\
   oneshot_convergence_callback "blinkiva-gauss" n_targets framesize win_s
     ref SDR SIR Y
   = evaluate_in_order reorder_by_power Y n_targets SDR SIR ref framesize
       win_s /\
   oneshot_final_order "blinkiva-gauss" y = reorder_by_power y) /\
  (* the algorithms that mbss_oneshot accepts *)
  Forall (fun algo => oneshot_final_order algo y = reorder_by_power y)
    choices /\
  (* the order of decreasing standard deviation *)
  (reorder_by_power y = np_take_columns y (new_ord_of y) /\
   new_ord_of y ≡ₚ seq 0 (length stds) /\
   StronglySorted (fun a b => (nth b stds 0 <= nth a stds 0)%R)
     (new_ord_of y)).
Proof.
  cbv zeta. split; [|split; [|split; [|split; [reflexivity|]]]].
  - split; [apply convergence_callback_unfold|].
    split; [apply oneshot_convergence_callback_unfold|].
    unfold oneshot_final_order. now destruct (String.eqb name "blinkiva").
  - repeat split; reflexivity.
  - repeat constructor.
  - apply new_ord_decreasing.
Qed.

End Callbacks.

(** The runs on the small instance are what evaluation gives. *)
Lemma callback_run_eq :
  convergence_callback (L := Small.library) 0 1 1 2 0 4 0 "auxiva"
    Small.listening = Small.callback_run.
Proof. vm_compute. reflexivity. Qed.

Lemma invocations_run_eq :
  invocations
    (fun Y => convergence_callback (L := Small.library) Y 1 1 2 0 4 0 "auxiva")
    [0; 0; 0] Small.listening = Small.invocations_run.
Proof. vm_compute. reflexivity. Qed.

(** The small instance, called back on the array at reference 0. *)
Lemma convergence_callback_preserves_Y_witness :
  heap (convergence_callback (L := Small.library) 0 1 1 2 0 4 0 "auxiva"
          Small.listening).2 !! 0%nat
  = Some (PArray Small.spectra1) /\
  exists sdr sir : list R,
    heap (convergence_callback (L := Small.library) 0 1 1 2 0 4 0 "auxiva"
            Small.listening).2
    = [PArray Small.spectra1; PList [sdr]; PList [sir]].
Proof.
  destruct (convergence_callback_preserves_Y (L := Small.library)
              0 1 1 2 0 4 0 "auxiva" Small.listening)
    as [[(HY & _) Happ] _].
  rewrite callback_run_eq in *.
  split; [exact HY|].
  destruct (Happ eq_refl) as (xs & ys & sdr & sir & H1 & H2 & H3).
  injection H1 as <-. injection H2 as <-.
  exists sdr, sir. exact H3.
Defined.

(** Three invocations on the small instance leave three entries in each of
    the two lists. *)
Lemma convergence_trace_append_only_witness :
  exists sdrs sirs : list (list R),
    metric_list
      (invocations
         (fun Y => convergence_callback (L := Small.library) Y 1 1 2 0 4 0
                     "auxiva")
         [0; 0; 0] Small.listening).2 1 = Some sdrs /\
    length sdrs = 3 /\
    metric_list
      (invocations
         (fun Y => convergence_callback (L := Small.library) Y 1 1 2 0 4 0
                     "auxiva")
         [0; 0; 0] Small.listening).2 2 = Some sirs /\
    length sirs = 3.
Proof.
  destruct (convergence_trace_append_only (L := Small.library)
              1 1 2 0 4 0 "auxiva") as [[_ Htrace] _]; [lia|].
  destruct (Htrace [0; 0; 0] Small.listening Small.invocations_run.2
              eq_refl eq_refl)
    as (sdrs & sirs & H1 & H2 & H3 & H4 & _).
  { rewrite invocations_run_eq. reflexivity. }
  rewrite invocations_run_eq.
  exists sdrs, sirs. auto.
Defined.

(* ===================================================================== *)
(** * Properties of the simulation driver *)
(* ===================================================================== *)

Section Simulation_properties.

Context {L : Library}.

Variable parameters : Parameters.

(** A loop keeps what every round keeps. *)
Lemma for_each_invariant {A S : Type} (P : S -> Prop) (xs : list A)
    (body : S -> A -> M S) :
  (forall (acc : S) (x : A) (w : world) (acc' : S) (w' : world),
      x ∈ xs -> P acc -> body acc x w = (Ok acc', w') -> P acc') ->
  forall (acc : S) (w : world) (acc' : S) (w' : world),
    P acc -> for_each xs body acc w = (Ok acc', w') -> P acc'.
Proof.
  induction xs as [|x xs IH]; intros Hbody acc w acc' w' Hacc Hrun.
  - injection Hrun as <- _. assumption.
  - simpl in Hrun. apply bind_ok in Hrun as (acc1 & w1 & Hx & Hrest).
    eapply IH; [| |exact Hrest].
    + intros ? y **. eapply Hbody; eauto. now right.
    + eapply Hbody; eauto. now left.
Qed.

Lemma generate_arguments_loops_determined (all_wav_files : list (list string))
    (w : world) (args : list sim_args) (w' : world) :
  generate_arguments_loops parameters all_wav_files w = (Ok args, w') ->
  Forall (fun a => (arg_n_targets a <= arg_n_mics a)%Z) args.
Proof.
  unfold generate_arguments_loops.
  apply for_each_invariant; [|constructor].
  intros acc n_targets w1 acc1 w1' _ Hacc.
  apply for_each_invariant; [|assumption].
  intros acc2 n_mics w2 acc2' w2' _ Hacc2.
  destruct (Z.gtb_spec n_targets n_mics) as [Hgt|Hle].
  { now intros [= <- _]. }
  apply for_each_invariant; [|assumption].
  intros acc3 rt60 w3 acc3' w3' _ Hacc3.
  apply for_each_invariant; [|assumption].
  intros acc4 sinr w4 acc4' w4' _ Hacc4.
  apply for_each_invariant; [|assumption].
  intros acc5 wav_files w5 acc5' w5' _ Hacc5 Hrun.
  apply bind_ok in Hrun as (s & w6 & _ & [= <- _]).
  apply Forall_app. split; [assumption|]. now repeat constructor.
Qed.

(** C1, as the code has it.  An argument list with [n_mics < n_targets] is
    not rejected with an error: [one_loop] returns the empty list of
    results.  It does so before anything else happens, apart from the
    entry it adds to [sys.path]: the random-number generator is neither read
    nor seeded, no library function is called, so nothing is simulated or
    separated, and no object is created or changed.  And
    [generate_arguments] leaves such combinations out of the list it
    returns. *)
Theorem underdetermined_is_skipped :
  (forall (args : sim_args) (w : world),
      (arg_n_mics args < arg_n_targets args)%Z ->
      one_loop parameters args w
      = (Ok [], {| np_random := np_random w;
                   sys_path := sys_path w ++ [base_dir parameters];
                   heap := heap w; calls := calls w |})) /\
  (forall (w : world) (args : list sim_args) (w' : world),
      generate_arguments parameters w = (Ok args, w') ->
      Forall (fun a => (arg_n_targets a <= arg_n_mics a)%Z) args).
Proof.
  split.
  - intros args w Hlt. unfold one_loop, mbind, M_bind. simpl.
    destruct (Z.ltb_spec (arg_n_mics args) (arg_n_targets args)); [|lia].
    reflexivity.
  - intros w args w' Hrun. unfold generate_arguments in Hrun.
    apply bind_ok in Hrun as (rs & w1 & _ & Hrun).
    apply bind_ok in Hrun as ([] & w2 & _ & Hrun).
    apply bind_ok in Hrun as (s & w3 & _ & Hrun).
    apply bind_ok in Hrun as (m & w4 & _ & Hrun).
    apply bind_ok in Hrun as (files & w5 & _ & Hrun).
    apply bind_ok in Hrun as (args' & w6 & Hloops & Hrun).
    apply bind_ok in Hrun as ([] & w7 & _ & [= <- _]).
    eapply generate_arguments_loops_determined, Hloops.
Qed.

Lemma rng_only_ret {A : Type} (a : A) : rng_only (mret a).
Proof. intros w1 w2 H. now split. Qed.

Lemma rng_only_raise {A : Type} (e : exn) : rng_only (raise (A := A) e).
Proof. intros w1 w2 H. now split. Qed.

Lemma rng_only_bind {A B : Type} (m : M A) (f : A -> M B) :
  rng_only m -> (forall a : A, rng_only (f a)) -> rng_only (m ≫= f).
Proof.
  intros Hm Hf w1 w2 H. unfold mbind, M_bind.
  destruct (Hm w1 w2 H) as [H1 H2].
  destruct (m w1) as [[a1|e1] w1'], (m w2) as [[a2|e2] w2']; simpl in *;
    try discriminate.
  - injection H1 as ->. now apply Hf.
  - injection H1 as ->. now split.
Qed.

Lemma rng_only_call {A : Type} (name : string) (f : ext A) :
  rng_only (call name f).
Proof.
  intros w1 w2 H. unfold call. rewrite H.
  now destruct (f (np_random w2)) as [o r].
Qed.

Lemma rng_only_randint (high : Z) : rng_only (np_random_randint high).
Proof.
  intros w1 w2 H. unfold np_random_randint. rewrite H.
  now destruct (randint high (np_random w2)) as [n r].
Qed.

Lemma rng_only_for_each {A S : Type} (xs : list A) (body : S -> A -> M S) :
  (forall (acc : S) (x : A), rng_only (body acc x)) ->
  forall acc : S, rng_only (for_each xs body acc).
Proof.
  intros Hbody. induction xs as [|x xs IH]; intros acc; simpl.
  - apply rng_only_ret.
  - apply rng_only_bind; [apply Hbody | exact IH].
Qed.

Lemma rng_only_generate_arguments_loops
    (all_wav_files : list (list string)) :
  rng_only (generate_arguments_loops parameters all_wav_files).
Proof.
  unfold generate_arguments_loops.
  apply rng_only_for_each. intros acc1 n_targets.
  apply rng_only_for_each. intros acc2 n_mics.
  destruct (n_targets >? n_mics)%Z; [apply rng_only_ret|].
  apply rng_only_for_each. intros acc3 rt60.
  apply rng_only_for_each. intros acc4 sinr.
  apply rng_only_for_each. intros acc5 wav_files.
  apply rng_only_bind; [apply rng_only_randint|].
  intros s. apply rng_only_ret.
Qed.

(** The outcome of two statements that differ only in what they do after
    the value is there. *)
Lemma bind_same_value {A B : Type} (m : M A) (f1 f2 : A -> M B)
    (w1 w2 : world) :
  rng_only m -> np_random w1 = np_random w2 ->
  (forall (a : A) (w1' w2' : world),
      np_random w1' = np_random w2' -> (f1 a w1').1 = (f2 a w2').1) ->
  ((m ≫= f1) w1).1 = ((m ≫= f2) w2).1.
Proof.
  intros Hm H Hf. unfold mbind, M_bind.
  destruct (Hm w1 w2 H) as [H1 H2].
  destruct (m w1) as [[a1|e1] w1'], (m w2) as [[a2|e2] w2']; simpl in *;
    try discriminate.
  - injection H1 as ->. now apply Hf.
  - injection H1 as ->. reflexivity.
Qed.

(** C2.  The seed fixes all randomness.  What [generate_arguments] returns
    for given parameters is the same from any two states of the process,
    whatever the state of the random-number generator: the same argument
    lists in the same order, with the same per-condition seeds.  And what
    [one_loop] returns and leaves in the store for given parameters and
    arguments does not depend on the state in which the call finds the
    generator. *)
Theorem seed_fixes_randomness (args : sim_args) (w w' : world)
    (r : rng_state) :
  (generate_arguments parameters w).1 = (generate_arguments parameters w').1 /\
  same_but_rng (one_loop parameters args (with_np_random r w))
               (one_loop parameters args w).
Proof.
  split.
  - unfold generate_arguments.
    change (((np_random_randint (2 ^ 32) ≫= fun gen_files_seed =>
              np_max (n_targets_list parameters) ≫= fun max_targets =>
              call "sampling"
                (sampling (n_repeat parameters)
                   (n_interferers parameters + max_targets)
                   (samples_list parameters) true gen_files_seed)
              ≫= fun all_wav_files =>
              generate_arguments_loops parameters all_wav_files
              ≫= fun args =>
              np_random_set_state (np_random w);; mret args)
               (with_np_random (seeded (seed parameters)) w)).1
            = ((np_random_randint (2 ^ 32) ≫= fun gen_files_seed =>
                np_max (n_targets_list parameters) ≫= fun max_targets =>
                call "sampling"
                  (sampling (n_repeat parameters)
                     (n_interferers parameters + max_targets)
                     (samples_list parameters) true gen_files_seed)
                ≫= fun all_wav_files =>
                generate_arguments_loops parameters all_wav_files
                ≫= fun args =>
                np_random_set_state (np_random w');; mret args)
                 (with_np_random (seeded (seed parameters)) w')).1).
    apply bind_same_value; [apply rng_only_randint | reflexivity|].
    intros gen_files_seed w1 w1' H1.
    apply bind_same_value; [|exact H1|].
    { unfold np_max. destruct (n_targets_list parameters);
        [apply rng_only_raise | apply rng_only_ret]. }
    intros max_targets w2 w2' H2.
    apply bind_same_value; [apply rng_only_call | exact H2|].
    intros all_wav_files w3 w3' H3.
    apply bind_same_value;
      [apply rng_only_generate_arguments_loops | exact H3|].
    intros arguments w4 w4' H4. reflexivity.
  - unfold one_loop, mbind, M_bind, np_random_get_state, np_random_seed,
      np_random_set_state, sys_path_append, mret, M_ret, with_np_random.
    simpl.
    destruct (arg_n_mics args <? arg_n_targets args)%Z; [now repeat split|].
    simpl.
    destruct (generate_audio _ _ _ _ _ _ _)
      as [[[[[mix ref] win_a] win_s]|e] w1]; [|now repeat split].
    destruct (bss _ _ _ _ _ _ _ _ _ _ _) as [[res|e] w2]; now repeat split.
Qed.

(** C3.  A call of [one_loop] or of [generate_arguments] that returns leaves
    NumPy's global random-number generator in the state in which the call
    found it: the state is saved before it is seeded and put back before
    the return. *)
Theorem rng_state_is_restored (args : sim_args) (w : world) :
  (forall (results : list result) (w' : world),
      one_loop parameters args w = (Ok results, w') ->
      np_random w' = np_random w) /\
  (forall (arguments : list sim_args) (w' : world),
      generate_arguments parameters w = (Ok arguments, w') ->
      np_random w' = np_random w).
Proof.
  split.
  - intros results w'. unfold one_loop.
    intros Hrun. apply bind_ok in Hrun as ([] & w0 & [= <-] & Hrun).
    destruct (arg_n_mics args <? arg_n_targets args)%Z.
    { now injection Hrun as _ <-. }
    apply bind_ok in Hrun as (rs & w1 & [= <- <-] & Hrun).
    apply bind_ok in Hrun as ([] & w2 & _ & Hrun).
    apply bind_ok in Hrun as ([[[mix ref] win_a] win_s] & w3 & _ & Hrun).
    apply bind_ok in Hrun as (res & w4 & _ & Hrun).
    apply bind_ok in Hrun as ([] & w5 & [= <-] & [= _ <-]).
    reflexivity.
  - intros arguments w'. unfold generate_arguments.
    intros Hrun. apply bind_ok in Hrun as (rs & w1 & [= <- <-] & Hrun).
    apply bind_ok in Hrun as ([] & w2 & _ & Hrun).
    apply bind_ok in Hrun as (s & w3 & _ & Hrun).
    apply bind_ok in Hrun as (m & w4 & _ & Hrun).
    apply bind_ok in Hrun as (files & w5 & _ & Hrun).
    apply bind_ok in Hrun as (args' & w6 & _ & Hrun).
    apply bind_ok in Hrun as ([] & w7 & [= <-] & [= _ <-]).
    reflexivity.
Qed.

(* --------------------------------------------------------------------- *)
(** ** The loop over the algorithms *)

Lemma bind_ext {A B : Type} (m : M A) (f g : A -> M B) (w : world) :
  (forall (a : A) (w1 : world), f a w1 = g a w1) ->
  (m ≫= f) w = (m ≫= g) w.
Proof.
  intros Hfg. unfold mbind, M_bind. destruct (m w) as [[a|e] w1]; auto.
Qed.

Lemma bind_cong {A B : Type} (m m' : M A) (f g : A -> M B) (w : world) :
  m w = m' w ->
  (forall (a : A) (w1 : world), f a w1 = g a w1) ->
  (m ≫= f) w = (m' ≫= g) w.
Proof.
  intros Hm Hfg. unfold mbind, M_bind. rewrite Hm.
  destruct (m' w) as [[a|e] w1]; auto.
Qed.

Lemma ret_bind {A B : Type} (a : A) (f : A -> M B) (w : world) :
  (mret a ≫= f) w = f a w.
Proof. reflexivity. Qed.

Lemma bind_assoc {A B C : Type} (m : M A) (f : A -> M B) (g : B -> M C)
    (w : world) :
  ((m ≫= f) ≫= g) w = (m ≫= fun a => f a ≫= g) w.
Proof.
  unfold mbind, M_bind. now destruct (m w) as [[a|e] w1].
Qed.

(** A run of an algorithm sees of its callback only what the callback
    does. *)
Lemma run_alg_ext (step : alg_step rng_state) (f g : loc -> M unit) :
  (forall (Y : loc) (w : world), f Y w = g Y w) ->
  forall w : world, run_alg step (Some f) w = run_alg step (Some g) w.
Proof.
  intros Hfg. induction step as [Y r|Y r resume IH|e r]; intros w; simpl;
    try reflexivity.
  unfold mbind, M_bind, alloc, np_random_set_state, np_random_get_state.
  simpl. rewrite Hfg.
  destruct (g _ _) as [[[]|e] w2]; [apply IH | reflexivity].
Qed.

Lemma call_alg_ext (name : string) (alg : rng_state -> alg_step rng_state)
    (f g : loc -> M unit) :
  (forall (Y : loc) (w : world), f Y w = g Y w) ->
  forall w : world,
    call_alg name alg (Some f) w = call_alg name alg (Some g) w.
Proof. intros Hfg w. unfold call_alg. now apply run_alg_ext. Qed.

Lemma results_last_snoc (results : list result) (r : result) (w : world) :
  results_last (results ++ [r]) w = (Ok r, w).
Proof. unfold results_last. now rewrite last_snoc. Qed.

Lemma implemented_cases (name : string) :
  implemented name = true ->
  String.eqb name "auxiva" = true \/
  (String.eqb name "auxiva" = false /\
   String.eqb name "blinkiva-gauss" = true).
Proof.
  unfold implemented. destruct (String.eqb name "auxiva"); simpl; auto.
Qed.

(** One round of the loop, for an implemented algorithm ... *)
Lemma bss_algorithm_implemented (n_targets n_mics : Z) (rt60 : string)
    (sinr : R) (seed : Z) (X_mics : loc) (U_blinky : matrix)
    (ref win_s : ndarray) (results : list result) (name : string)
    (kw : kwargs) (w : world) :
  implemented name = true ->
  bss_algorithm parameters n_targets n_mics rt60 sinr seed X_mics U_blinky
    ref win_s results (name, kw) w
  = evaluated_separation parameters n_targets n_mics rt60 sinr seed X_mics
      U_blinky ref win_s results name kw w.
Proof.
  intros Himpl. unfold bss_algorithm, evaluated_separation.
  apply bind_ext. intros sdr_list w1. apply bind_ext. intros sir_list w2.
  cbv zeta. fold (new_result name n_targets n_mics rt60 sinr seed
                    sdr_list sir_list).
  set (rec := new_result _ _ _ _ _ _ _ _).
  assert (Heval : forall Y w,
             (results_last (results ++ [rec]) ≫= fun r =>
                convergence_callback Y n_targets (sdr r) (sir r) ref
                  (framesize parameters) win_s name) w
             = convergence_callback Y n_targets sdr_list sir_list ref
                 (framesize parameters) win_s name w).
  { intros Y w'. unfold mbind, M_bind. now rewrite results_last_snoc. }
  assert (Hlast : forall Y w,
             ((results_last (results ++ [rec]) ≫= fun r =>
                 convergence_callback Y n_targets (sdr r) (sir r) ref
                   (framesize parameters) win_s name);;
              mret (results ++ [rec])) w
             = (convergence_callback Y n_targets sdr_list sir_list ref
                  (framesize parameters) win_s name;;
                mret (results ++ [rec])) w).
  { intros Y w'. apply bind_cong; [apply Heval | reflexivity]. }
  unfold separate.
  destruct (monitor_convergence parameters).
  - rewrite !ret_bind.
    destruct (implemented_cases _ Himpl) as [->|[-> ->]];
      apply bind_ext; intros X w3;
      (apply bind_cong; [now apply call_alg_ext | exact Hlast]).
  - rewrite bind_assoc.
    apply bind_cong; [apply Heval|]. intros [] w3. rewrite ret_bind.
    destruct (implemented_cases _ Himpl) as [->|[-> ->]];
      apply bind_ext; intros X w4;
      (apply bind_cong; [reflexivity | exact Hlast]).
Qed.

(** ... and for any other name. *)
Lemma bss_algorithm_other (n_targets n_mics : Z) (rt60 : string)
    (sinr : R) (seed : Z) (X_mics : loc) (U_blinky : matrix)
    (ref win_s : ndarray) (results : list result) (name : string)
    (kw : kwargs) (w : world) :
  implemented name = false ->
  bss_algorithm parameters n_targets n_mics rt60 sinr seed X_mics U_blinky
    ref win_s results (name, kw) w
  = recorded_only parameters n_targets n_mics rt60 sinr seed X_mics ref win_s
      results name w.
Proof.
  intros Himpl. unfold bss_algorithm, recorded_only.
  apply bind_ext. intros sdr_list w1. apply bind_ext. intros sir_list w2.
  cbv zeta. fold (new_result name n_targets n_mics rt60 sinr seed
                    sdr_list sir_list).
  unfold implemented in Himpl. apply orb_false_iff in Himpl as [-> ->].
  destruct (monitor_convergence parameters); unfold mbind, M_bind; simpl.
  - reflexivity.
  - rewrite results_last_snoc. simpl.
    now destruct (convergence_callback _ _ _ _ _ _ _ _ _) as [[[]|e] w3].
Qed.

(* --------------------------------------------------------------------- *)
(** ** What a round leaves in the store *)

Lemma keeps_refl (n : nat) (w : world) : keeps n w w.
Proof. repeat split; auto. Qed.

Lemma keeps_trans (n : nat) (w1 w2 w3 : world) :
  keeps n w1 w2 -> keeps n w2 w3 -> keeps n w1 w3.
Proof.
  intros (H1 & H2 & H3) (H4 & H5 & H6). repeat split.
  - lia.
  - congruence.
  - intros l Hl. now rewrite H6, H3.
Qed.

Lemma keeps_weaken (n m : nat) (w w' : world) :
  m <= n -> keeps n w w' -> keeps m w w'.
Proof.
  intros Hmn (H1 & H2 & H3). repeat split; auto.
  intros l Hl. apply H3. lia.
Qed.

Lemma alloc_ok (o : pyobj) (w : world) (l : loc) (w' : world) :
  alloc o w = (Ok l, w') ->
  l = length (heap w) /\ heap w' = heap w ++ [o] /\
  keeps (length (heap w)) w w'.
Proof.
  intros [= <- <-]. unfold keeps. simpl. repeat split; auto.
  - rewrite length_app. lia.
  - intros l Hl. now apply lookup_app_l.
Qed.

Lemma evaluate_keeps (n : nat) (Y : loc) (n_targets : Z) (SDR SIR : loc)
    (ref : ndarray) (framesize : Z) (win_s : ndarray) (name : string)
    (w : world) :
  n <= SDR -> n <= SIR ->
  keeps n w
    (convergence_callback Y n_targets SDR SIR ref framesize win_s name w).2.
Proof.
  intros H1 H2. rewrite convergence_callback_unfold.
  destruct (evaluate_in_order_frame
              (if String.prefix "blinkiva" name then fun y => y
               else reorder_by_power)
              Y n_targets SDR SIR ref framesize win_s w)
    as (_ & Hframe & Hlen & Hpath).
  repeat split; auto.
  - lia.
  - intros l Hl. apply Hframe; lia.
Qed.

Lemma run_alg_keeps (n : nat) (cb : option (loc -> M unit))
    (step : alg_step rng_state) :
  (forall f, cb = Some f -> forall Y w, keeps n w (f Y w).2) ->
  forall w : world, n <= length (heap w) -> keeps n w (run_alg step cb w).2.
Proof.
  intros Hcb.
  induction step as [Y r|Y r resume IH|e r]; intros w Hn; simpl;
    unfold mbind, M_bind; simpl.
  - repeat split; simpl; auto.
    + rewrite length_app. lia.
    + intros l Hl. apply lookup_app_l. lia.
  - destruct cb as [f|]; simpl.
    + match goal with
      | |- context [f ?y ?w0] =>
          pose proof (Hcb f eq_refl y w0) as Hf;
          destruct (f y w0) as [[[]|e] w1]; simpl in *
      end.
      * eapply keeps_trans; [|apply IH].
        -- destruct Hf as (H1 & H2 & H3). simpl in *.
           rewrite length_app in H1. repeat split; auto; try lia.
           intros l Hl. rewrite H3 by assumption. apply lookup_app_l. lia.
        -- destruct Hf as (H1 & _). simpl in H1. rewrite length_app in H1.
           lia.
      * destruct Hf as (H1 & H2 & H3). simpl in *.
        rewrite length_app in H1. repeat split; auto; try lia.
        intros l Hl. rewrite H3 by assumption. apply lookup_app_l. lia.
    + eapply keeps_trans; [|apply IH; simpl; lia].
      repeat split; auto.
  - repeat split; auto.
Qed.

Lemma call_alg_keeps (n : nat) (name : string)
    (alg : rng_state -> alg_step rng_state) (cb : option (loc -> M unit))
    (w : world) :
  (forall f, cb = Some f -> forall Y w, keeps n w (f Y w).2) ->
  n <= length (heap w) -> keeps n w (call_alg name alg cb w).2.
Proof.
  intros Hcb Hn. unfold call_alg.
  eapply keeps_trans; [|apply run_alg_keeps; [exact Hcb | exact Hn]].
  repeat split; auto.
Qed.

Lemma separate_keeps (n : nat) (name : string) (X : Spectra)
    (U_blinky : matrix) (n_targets : Z) (kw : kwargs)
    (cb : option (loc -> M unit)) (w : world) :
  (forall f, cb = Some f -> forall Y w, keeps n w (f Y w).2) ->
  n <= length (heap w) ->
  keeps n w (separate name X U_blinky n_targets kw cb w).2.
Proof.
  intros Hcb Hn. unfold separate.
  destruct (String.eqb name "auxiva"); now apply call_alg_keeps.
Qed.

Lemma metric_list_keeps (n : nat) (w w' : world) (l : loc) :
  keeps n w w' -> l < n -> metric_list w' l = metric_list w l.
Proof.
  intros (_ & _ & H) Hl. unfold metric_list. now rewrite H.
Qed.

(** An evaluation that returns, on two distinct lists. *)
Lemma evaluate_appended (Y : loc) (n_targets : Z) (SDR SIR : loc)
    (ref : ndarray) (framesize : Z) (win_s : ndarray) (name : string)
    (w w' : world) :
  SDR <> SIR ->
  convergence_callback Y n_targets SDR SIR ref framesize win_s name w
  = (Ok tt, w') ->
  exists (xs ys : list (list R)) (sdr sir : list R),
    metric_list w SDR = Some xs /\ metric_list w SIR = Some ys /\
    metric_list w' SDR = Some (xs ++ [sdr]) /\
    metric_list w' SIR = Some (ys ++ [sir]).
Proof.
  intros Hne Hrun. pose proof Hrun as Hrun'.
  rewrite convergence_callback_unfold in Hrun.
  apply evaluate_in_order_ok in Hrun
    as (a & xs & ys & sdr & sir & _ & H1 & H2 & _ & _).
  rewrite list_lookup_insert_ne in H2 by assumption.
  assert (HSDR : metric_list w SDR = Some xs)
    by (unfold metric_list; now rewrite H1).
  assert (HSIR : metric_list w SIR = Some ys)
    by (unfold metric_list; now rewrite H2).
  rewrite convergence_callback_unfold in Hrun'.
  destruct (appends_one_evaluate _ n_targets SDR SIR ref framesize win_s Hne
              Y w w' xs ys HSDR HSIR Hrun') as (sdr' & sir' & H3 & H4).
  exists xs, ys, sdr', sir'. auto.
Qed.

Lemma read_array_ok (l : loc) (w : world) (a : Spectra) (w' : world) :
  read_array l w = (Ok a, w') -> w' = w.
Proof.
  unfold read_array. destruct (heap w !! l) as [[?|?]|]; congruence.
Qed.

Lemma run_keeps {A : Type} (n : nat) (m : M A) (w : world) (o : outcome A)
    (w' : world) :
  keeps n w (m w).2 -> m w = (o, w') -> keeps n w w'.
Proof. intros H E. now rewrite E in H. Qed.

Lemma two_new_lists (h : list pyobj) (w : world) :
  heap w = (h ++ [PList []]) ++ [PList []] ->
  metric_list w (length h) = Some [] /\
  metric_list w (S (length h)) = Some [].
Proof.
  intros E. unfold metric_list. rewrite E. split.
  - rewrite <- app_assoc. simpl.
    now rewrite list_lookup_middle.
  - rewrite list_lookup_middle; [reflexivity|].
    rewrite length_app. simpl. lia.
Qed.

(** The round of an implemented algorithm, if it comes to its end. *)
Lemma evaluated_separation_round (n_targets n_mics : Z) (rt60 : string)
    (sinr : R) (seed : Z) (X_mics : loc) (U_blinky : matrix)
    (ref win_s : ndarray) (results : list result) (name : string)
    (kw : kwargs) (w : world) (results' : list result) (w' : world) :
  implemented name = true ->
  evaluated_separation parameters n_targets n_mics rt60 sinr seed X_mics
    U_blinky ref win_s results name kw w = (Ok results', w') ->
  let r := new_result name n_targets n_mics rt60 sinr seed
             (length (heap w)) (S (length (heap w))) in
  keeps (length (heap w)) w w' /\ results' = results ++ [r] /\
  recorded parameters w' r.
Proof.
  intros Himpl Hrun. unfold evaluated_separation in Hrun.
  apply bind_ok in Hrun as (sdr_list & w1 & Ha1 & Hrun).
  apply alloc_ok in Ha1 as (-> & Hh1 & Hk1).
  apply bind_ok in Hrun as (sir_list & w2 & Ha2 & Hrun).
  apply alloc_ok in Ha2 as (-> & Hh2 & Hk2).
  rewrite Hh1 in Hh2.
  assert (Hlen1 : length (heap w1) = S (length (heap w)))
    by (rewrite Hh1, length_app; simpl; lia).
  assert (Hlen2 : length (heap w2) = S (S (length (heap w))))
    by (rewrite Hh2, !length_app; simpl; lia).
  rewrite Hlen1 in *.
  apply (keeps_weaken _ (length (heap w))) in Hk2; [|lia].
  pose proof (keeps_trans _ _ _ _ Hk1 Hk2) as Hk12.
  destruct (two_new_lists _ _ Hh2) as [Hsdr2 Hsir2].
  set (n := length (heap w)) in *.
  cbv zeta in Hrun.
  apply bind_ok in Hrun as ([] & w3 & Hpre & Hrun).
  apply bind_ok in Hrun as (X & w3' & Hread & Hrun).
  apply read_array_ok in Hread as ->.
  apply bind_ok in Hrun as (Y & w4 & Hsep & Hrun).
  apply bind_ok in Hrun as ([] & w5 & Hfin & [= <- <-]).
  assert (Hevk : forall Y w0,
             keeps n w0
               (convergence_callback Y n_targets n (S n) ref
                  (framesize parameters) win_s name w0).2)
    by (intros; apply evaluate_keeps; lia).
  assert (Hk23 : keeps n w2 w3 /\
                 (monitor_convergence parameters = false ->
                  exists s t, metric_list w3 n = Some [s] /\
                              metric_list w3 (S n) = Some [t])).
  { destruct (monitor_convergence parameters).
    - injection Hpre as <-. split; [apply keeps_refl | discriminate].
    - split; [eapply run_keeps; [apply Hevk | exact Hpre]|]. intros _.
      apply evaluate_appended in Hpre
        as (xs & ys & s & t & H1 & H2 & H3 & H4); [|lia].
      rewrite Hsdr2 in H1. injection H1 as <-.
      rewrite Hsir2 in H2. injection H2 as <-.
      eauto. }
  destruct Hk23 as [Hk23 Hpre'].
  assert (Hlen3 : S (S n) <= length (heap w3))
    by (destruct Hk23 as [? _]; lia).
  assert (Hk34 : keeps (length (heap w3)) w3 w4 \/
                 monitor_convergence parameters = true).
  { destruct (monitor_convergence parameters); [now right | left].
    eapply run_keeps; [|exact Hsep].
    apply separate_keeps; [discriminate | lia]. }
  assert (Hk34' : keeps n w3 w4).
  { eapply run_keeps; [|exact Hsep]. apply separate_keeps; [|lia].
    intros f Hf. destruct (monitor_convergence parameters); [|discriminate].
    injection Hf as <-. exact Hevk. }
  assert (Hk45 : keeps n w4 w5)
    by (eapply run_keeps; [apply Hevk | exact Hfin]).
  assert (Hk : keeps n w w5)
    by (repeat (eapply keeps_trans; [eassumption|]); apply keeps_refl).
  split; [exact Hk|]. split; [reflexivity|].
  assert (Hlen5 : S (S n) <= length (heap w5)).
  { destruct Hk34' as [? _], Hk45 as [? _]. lia. }
  apply evaluate_appended in Hfin
    as (xs & ys & s & t & H1 & H2 & H3 & H4); [|lia].
  unfold recorded. simpl. rewrite Himpl.
  split; [lia|]. split; [lia|].
  exists (xs ++ [s]), (ys ++ [t]).
  split; [exact H3|]. split; [exact H4|].
  split; [now destruct xs|]. split; [now destruct ys|].
  intros Hmon. destruct (Hpre' Hmon) as (s0 & t0 & Hs0 & Ht0).
  destruct Hk34 as [Hk34|Hk34]; [|congruence].
  rewrite <- (metric_list_keeps _ _ _ n Hk34) in Hs0 by lia.
  rewrite <- (metric_list_keeps _ _ _ (S n) Hk34) in Ht0 by lia.
  rewrite Hs0 in H1. injection H1 as <-.
  rewrite Ht0 in H2. injection H2 as <-.
  split; reflexivity.
Qed.

(** The round of any other name. *)
Lemma recorded_only_round (n_targets n_mics : Z) (rt60 : string)
    (sinr : R) (seed : Z) (X_mics : loc) (ref win_s : ndarray)
    (results : list result) (name : string) (w : world)
    (results' : list result) (w' : world) :
  implemented name = false ->
  recorded_only parameters n_targets n_mics rt60 sinr seed X_mics ref win_s
    results name w = (Ok results', w') ->
  let r := new_result name n_targets n_mics rt60 sinr seed
             (length (heap w)) (S (length (heap w))) in
  keeps (length (heap w)) w w' /\ results' = results ++ [r] /\
  recorded parameters w' r.
Proof.
  intros Himpl Hrun. unfold recorded_only in Hrun.
  apply bind_ok in Hrun as (sdr_list & w1 & Ha1 & Hrun).
  apply alloc_ok in Ha1 as (-> & Hh1 & Hk1).
  apply bind_ok in Hrun as (sir_list & w2 & Ha2 & Hrun).
  apply alloc_ok in Ha2 as (-> & Hh2 & Hk2).
  rewrite Hh1 in Hh2.
  assert (Hlen1 : length (heap w1) = S (length (heap w)))
    by (rewrite Hh1, length_app; simpl; lia).
  assert (Hlen2 : length (heap w2) = S (S (length (heap w))))
    by (rewrite Hh2, !length_app; simpl; lia).
  rewrite Hlen1 in *.
  apply (keeps_weaken _ (length (heap w))) in Hk2; [|lia].
  pose proof (keeps_trans _ _ _ _ Hk1 Hk2) as Hk12.
  destruct (two_new_lists _ _ Hh2) as [Hsdr2 Hsir2].
  set (n := length (heap w)) in *.
  apply bind_ok in Hrun as ([] & w3 & Hpre & [= <- <-]).
  unfold recorded. simpl. rewrite Himpl.
  destruct (monitor_convergence parameters).
  - injection Hpre as <-.
    split; [exact Hk12|]. split; [reflexivity|].
    split; [lia|]. split; [lia|]. exists [], []. auto.
  - assert (Hk23 : keeps n w2 w3).
    { eapply run_keeps; [|exact Hpre]. apply evaluate_keeps; lia. }
    split; [eapply keeps_trans; eassumption|]. split; [reflexivity|].
    destruct Hk23 as [Hlen3 _].
    split; [lia|]. split; [lia|].
    apply evaluate_appended in Hpre
      as (xs & ys & s & t & H1 & H2 & H3 & H4); [|lia].
    rewrite Hsdr2 in H1. injection H1 as <-.
    rewrite Hsir2 in H2. injection H2 as <-.
    exists [s], [t]. auto.
Qed.

Lemma bss_algorithm_round (n_targets n_mics : Z) (rt60 : string)
    (sinr : R) (seed : Z) (X_mics : loc) (U_blinky : matrix)
    (ref win_s : ndarray) (results : list result) (name : string)
    (kw : kwargs) (w : world) (results' : list result) (w' : world) :
  bss_algorithm parameters n_targets n_mics rt60 sinr seed X_mics U_blinky
    ref win_s results (name, kw) w = (Ok results', w') ->
  let r := new_result name n_targets n_mics rt60 sinr seed
             (length (heap w)) (S (length (heap w))) in
  keeps (length (heap w)) w w' /\ results' = results ++ [r] /\
  recorded parameters w' r.
Proof.
  destruct (implemented name) eqn:Himpl.
  - rewrite bss_algorithm_implemented by assumption.
    now apply evaluated_separation_round.
  - rewrite bss_algorithm_other by assumption.
    now apply recorded_only_round.
Qed.

Lemma recorded_heap (w w' : world) (r : result) :
  heap w = heap w' -> recorded parameters w r -> recorded parameters w' r.
Proof. unfold recorded, metric_list. now intros ->. Qed.

Lemma recorded_keeps (w w' : world) (r : result) :
  keeps (length (heap w)) w w' ->
  recorded parameters w r -> recorded parameters w' r.
Proof.
  intros Hk (H1 & H2 & sdrs & sirs & H3 & H4 & H5).
  pose proof Hk as (Hlen & _).
  split; [lia|]. split; [lia|]. exists sdrs, sirs.
  rewrite !(metric_list_keeps _ _ _ _ Hk) by assumption. auto.
Qed.

(** The whole loop: one entry per item, in the order of the items. *)
Lemma bss_loop (n_targets n_mics : Z) (rt60 : string) (sinr : R) (seed : Z)
    (X_mics : loc) (U_blinky : matrix) (ref win_s : ndarray)
    (items : list (string * kwargs)) :
  forall (results : list result) (w : world) (results' : list result)
         (w' : world),
    for_each items
      (bss_algorithm parameters n_targets n_mics rt60 sinr seed X_mics
         U_blinky ref win_s) results w = (Ok results', w') ->
    Forall (recorded parameters w) results ->
    exists new : list result,
      results' = results ++ new /\
      map algorithm new = items.*1 /\
      Forall (fun r => r = new_result (algorithm r) n_targets n_mics rt60
                             sinr seed (sdr r) (sir r)) new /\
      Forall (recorded parameters w') results'.
Proof.
  induction items as [|[name kw] items IH];
    intros results w results' w' Hrun Hrec.
  - injection Hrun as <- <-. exists []. rewrite app_nil_r. auto.
  - simpl in Hrun. apply bind_ok in Hrun as (results1 & w1 & Hround & Hrun).
    apply bss_algorithm_round in Hround as (Hk & -> & Hr).
    destruct (IH _ _ _ _ Hrun) as (new & -> & Hnames & Hfields & Hall).
    { apply Forall_app. split; [|constructor; [exact Hr | constructor]].
      eapply Forall_impl; [exact Hrec|]. intros r. now apply recorded_keeps. }
    eexists (_ :: new). rewrite <- app_assoc. simpl.
    split; [reflexivity|]. split; [now rewrite Hnames|].
    split; [now constructor|].
    now rewrite <- app_assoc in Hall.
Qed.

Lemma bss_results (n_targets n_mics : Z) (rt60 : string) (sinr : R)
    (seed : Z) (mix ref win_a win_s : ndarray) (w : world)
    (results : list result) (w' : world) :
  bss parameters n_targets n_mics rt60 sinr seed mix ref win_a win_s w
  = (Ok results, w') ->
  map algorithm results = (algorithm_kwargs parameters).*1 /\
  Forall (fun r => r = new_result (algorithm r) n_targets n_mics rt60 sinr
                         seed (sdr r) (sir r)) results /\
  Forall (recorded parameters w') results.
Proof.
  unfold bss. intros Hrun.
  apply bind_ok in Hrun as (X_all & w1 & _ & Hrun).
  apply bind_ok in Hrun as (X_mics & w2 & _ & Hrun).
  apply bss_loop in Hrun as (new & -> & H1 & H2 & H3); [|constructor].
  auto.
Qed.

(** A call of [one_loop] past the first test, if it returns. *)
Lemma one_loop_results (args : sim_args) (w : world) (results : list result)
    (w' : world) :
  (arg_n_targets args <= arg_n_mics args)%Z ->
  one_loop parameters args w = (Ok results, w') ->
  map algorithm results = (algorithm_kwargs parameters).*1 /\
  Forall (condition_of args) results /\
  Forall (recorded parameters w') results.
Proof.
  intros Hdet Hrun. unfold one_loop in Hrun.
  apply bind_ok in Hrun as ([] & w0 & _ & Hrun).
  destruct (Z.ltb_spec (arg_n_mics args) (arg_n_targets args)); [lia|].
  apply bind_ok in Hrun as (rs & w1 & _ & Hrun).
  apply bind_ok in Hrun as ([] & w2 & _ & Hrun).
  apply bind_ok in Hrun as ([[[mix ref] win_a] win_s] & w3 & _ & Hrun).
  apply bind_ok in Hrun as (res & w4 & Hbss & Hrun).
  apply bind_ok in Hrun as ([] & w5 & [= <-] & [= <- <-]).
  apply bss_results in Hbss as (H1 & H2 & H3).
  split; [exact H1|]. split.
  - eapply Forall_impl; [exact H2|]. intros r ->. repeat split.
  - eapply Forall_impl; [exact H3|]. intros r. now apply recorded_heap.
Qed.

(** C7.  The callback is optional for the algorithm, and the metrics are
    recorded all the same.  For each implemented algorithm ([auxiva] and
    [blinkiva-gauss]) a round of the loop of [one_loop] is this: without
    monitoring the callback is called once on the mixture [X_mics] and the
    algorithm is then called with [None] for its callback, with monitoring
    the algorithm is called with the callback; in both cases the callback
    is then called once on the estimate [Y] that the algorithm returned.
    So in the results of a call of [one_loop] that returns, the [sdr] and
    [sir] lists of an implemented algorithm are not empty, and without
    monitoring they hold these two evaluations and no other. *)
Theorem metrics_recorded_in_both_modes :
  (forall (n_targets n_mics : Z) (rt60 : string) (sinr : R) (seed : Z)
          (X_mics : loc) (U_blinky : matrix) (ref win_s : ndarray)
          (results : list result) (name : string) (kw : kwargs) (w : world),
      implemented name = true ->
      bss_algorithm parameters n_targets n_mics rt60 sinr seed X_mics
        U_blinky ref win_s results (name, kw) w
      = evaluated_separation parameters n_targets n_mics rt60 sinr seed
          X_mics U_blinky ref win_s results name kw w) /\
  (forall (args : sim_args) (w : world) (results : list result)
          (w' : world),
      (arg_n_targets args <= arg_n_mics args)%Z ->
      one_loop parameters args w = (Ok results, w') ->
      Forall (fun r =>
                implemented (algorithm r) = true ->
                exists sdrs sirs : list (list R),
                  metric_list w' (sdr r) = Some sdrs /\
                  metric_list w' (sir r) = Some sirs /\
                  sdrs <> [] /\ sirs <> [] /\
                  (monitor_convergence parameters = false ->
                   length sdrs = 2 /\ length sirs = 2))
             results).
Proof.
  split.
  - intros. now apply bss_algorithm_implemented.
  - intros args w results w' Hdet Hrun.
    destruct (one_loop_results _ _ _ _ Hdet Hrun) as (_ & _ & Hrec).
    eapply Forall_impl; [exact Hrec|].
    intros r (_ & _ & sdrs & sirs & H1 & H2 & H3) Himpl.
    rewrite Himpl in H3. exists sdrs, sirs. auto.
Qed.

(** C9.  A call of [one_loop] that gets past the first test and returns,
    returns one entry for each key of [parameters['algorithm_kwargs']], in
    the order of the keys; each entry carries the algorithm, the condition
    ([n_targets], [n_mics], [rt60], [sinr], [seed]) and its two lists.  This
    includes the names that are neither [auxiva] nor [blinkiva-gauss]: for
    those the round only records the entry, with the evaluation of the
    mixture when there is no monitoring; nothing is separated and no final
    evaluation is appended. *)
Theorem one_result_per_algorithm :
  (forall (n_targets n_mics : Z) (rt60 : string) (sinr : R) (seed : Z)
          (X_mics : loc) (U_blinky : matrix) (ref win_s : ndarray)
          (results : list result) (name : string) (kw : kwargs) (w : world),
      implemented name = false ->
      bss_algorithm parameters n_targets n_mics rt60 sinr seed X_mics
        U_blinky ref win_s results (name, kw) w
      = recorded_only parameters n_targets n_mics rt60 sinr seed X_mics ref
          win_s results name w) /\
  (forall (args : sim_args) (w : world) (results : list result)
          (w' : world),
      (arg_n_targets args <= arg_n_mics args)%Z ->
      one_loop parameters args w = (Ok results, w') ->
      map algorithm results = (algorithm_kwargs parameters).*1 /\
      Forall (fun r =>
                condition_of args r /\
                exists sdrs sirs : list (list R),
                  metric_list w' (sdr r) = Some sdrs /\
                  metric_list w' (sir r) = Some sirs /\
                  (implemented (algorithm r) = false ->
                   length sdrs
                   = (if monitor_convergence parameters then 0 else 1) /\
                   length sirs
                   = (if monitor_convergence parameters then 0 else 1)))
             results).
Proof.
  split.
  - intros. now apply bss_algorithm_other.
  - intros args w results w' Hdet Hrun.
    destruct (one_loop_results _ _ _ _ Hdet Hrun) as (Hnames & Hcond & Hrec).
    split; [exact Hnames|].
    apply Forall_forall. intros r Hr.
    rewrite Forall_forall in Hcond, Hrec.
    split; [now apply Hcond|].
    destruct (Hrec r Hr) as (_ & _ & sdrs & sirs & H1 & H2 & H3).
    exists sdrs, sirs. split; [exact H1|]. split; [exact H2|].
    intros Himpl. now rewrite Himpl in H3.
Qed.

End Simulation_properties.

(* ===================================================================== *)
(** * The drivers on the small instance *)
(* ===================================================================== *)

Lemma determined_run_eq :
  one_loop (L := Small.library) Small.parameters Small.determined Small.start
  = Small.determined_run.
Proof. vm_compute. reflexivity. Qed.

Lemma monitoring_run_eq :
  one_loop (L := Small.library) Small.monitoring Small.determined Small.start
  = Small.monitoring_run.
Proof. vm_compute. reflexivity. Qed.

Lemma underdetermined_run_eq :
  one_loop (L := Small.library) Small.parameters Small.underdetermined
    Small.start
  = Small.underdetermined_run.
Proof. vm_compute. reflexivity. Qed.

Lemma one_recording_run_eq :
  one_loop (L := Small.library) Small.parameters Small.one_recording
    Small.start
  = Small.one_recording_run.
Proof. vm_compute. reflexivity. Qed.

Lemma arguments_run_eq :
  generate_arguments (L := Small.library) Small.parameters Small.start
  = Small.arguments_run.
Proof. vm_compute. reflexivity. Qed.

(** C1, as stated, does not hold: with one microphone for two targets
    [one_loop] raises no error.  It returns the empty list, and by then it
    has added an entry to [sys.path]. *)
Lemma underdetermined_not_rejected :
  one_loop (L := Small.library) Small.parameters Small.underdetermined
    Small.start
  = (Ok [], Small.start_with_base_dir) /\
  ~ exists e : exn,
      (one_loop (L := Small.library) Small.parameters Small.underdetermined
         Small.start).1 = Raise e.
Proof.
  rewrite underdetermined_run_eq.
  split; [reflexivity|]. intros [e He]. discriminate He.
Qed.

Lemma underdetermined_is_skipped_witness :
  one_loop (L := Small.library) Small.parameters Small.underdetermined
    Small.start
  = (Ok [], Small.start_with_base_dir) /\
  exists (args : list sim_args) (w' : world),
    generate_arguments (L := Small.library) Small.parameters Small.start
    = (Ok args, w') /\
    args <> [] /\
    Forall (fun a => (arg_n_targets a <= arg_n_mics a)%Z) args.
Proof.
  destruct (underdetermined_is_skipped (L := Small.library) Small.parameters)
    as [Hskip Hgen].
  split.
  - apply (Hskip Small.underdetermined Small.start). simpl. lia.
  - destruct Small.arguments_run as [[args|e] w'] eqn:Erun;
      [|discriminate Erun].
    exists args, w'. rewrite arguments_run_eq, Erun.
    split; [reflexivity|]. split.
    + injection Erun as <- _. discriminate.
    + apply (Hgen Small.start args w'). now rewrite arguments_run_eq.
Defined.

Lemma rng_state_is_restored_witness :
  (exists (results : list result) (w' : world),
      one_loop (L := Small.library) Small.parameters Small.determined
        Small.start = (Ok results, w') /\
      np_random w' = 42) /\
  (exists (arguments : list sim_args) (w' : world),
      generate_arguments (L := Small.library) Small.parameters Small.start
      = (Ok arguments, w') /\
      np_random w' = 42).
Proof.
  destruct (rng_state_is_restored (L := Small.library) Small.parameters
              Small.determined Small.start) as [Hloop Hgen].
  split.
  - destruct Small.determined_run as [[results|e] w'] eqn:Erun;
      [|discriminate Erun].
    exists results, w'. rewrite determined_run_eq, Erun.
    split; [reflexivity|].
    apply (Hloop results w'). now rewrite determined_run_eq.
  - destruct Small.arguments_run as [[args|e] w'] eqn:Erun;
      [|discriminate Erun].
    exists args, w'. rewrite arguments_run_eq, Erun.
    split; [reflexivity|].
    apply (Hgen args w'). now rewrite arguments_run_eq.
Defined.

(** A call that raises does not put the state back: with one recording for
    two sources the assertion on the number of sources fails, and the
    generator stays as the seed of the argument list left it. *)
Example rng_state_not_restored_on_failure :
  (one_loop (L := Small.library) Small.parameters Small.one_recording
     Small.start).1 = Raise AssertionError /\
  np_random (one_loop (L := Small.library) Small.parameters
               Small.one_recording Small.start).2 = 5.
Proof. rewrite one_recording_run_eq. split; reflexivity. Qed.

Lemma metrics_recorded_in_both_modes_witness :
  exists (results : list result) (w' : world),
    one_loop (L := Small.library) Small.parameters Small.determined
      Small.start = (Ok results, w') /\
    map algorithm results = ["auxiva"; "blinkiva-gauss"; "ilrma"] /\
    Forall (fun r =>
              implemented (algorithm r) = true ->
              exists sdrs sirs : list (list R),
                metric_list w' (sdr r) = Some sdrs /\
                metric_list w' (sir r) = Some sirs /\
                sdrs <> [] /\ sirs <> [] /\
                (monitor_convergence Small.parameters = false ->
                 length sdrs = 2 /\ length sirs = 2))
      results.
Proof.
  destruct (metrics_recorded_in_both_modes (L := Small.library)
              Small.parameters) as [_ Hloop].
  destruct Small.determined_run as [[results|e] w'] eqn:Erun;
    [|discriminate Erun].
  exists results, w'. rewrite determined_run_eq, Erun.
  split; [reflexivity|]. split.
  - injection Erun as <- _. reflexivity.
  - apply (Hloop Small.determined Small.start results w').
    + simpl. lia.
    + now rewrite determined_run_eq.
Defined.

Lemma one_result_per_algorithm_witness :
  exists (results : list result) (w' : world),
    one_loop (L := Small.library) Small.monitoring Small.determined
      Small.start = (Ok results, w') /\
    map algorithm results = ["blinkiva-gauss"; "ilrma"] /\
    Forall (condition_of Small.determined) results.
Proof.
  destruct (one_result_per_algorithm (L := Small.library) Small.monitoring)
    as [_ Hloop].
  destruct Small.monitoring_run as [[results|e] w'] eqn:Erun;
    [|discriminate Erun].
  exists results, w'. rewrite monitoring_run_eq, Erun.
  split; [reflexivity|].
  destruct (Hloop Small.determined Small.start results w') as [Hnames Hall].
  - simpl. lia.
  - now rewrite monitoring_run_eq.
  - split; [exact Hnames|].
    eapply Forall_impl; [exact Hall|]. now intros r [Hr _].
Defined.

(* ===================================================================== *)
(** * Further properties of the signal levels *)
(* ===================================================================== *)

Section More_levels.

Local Open Scope R_scope.





(** X3.  In [callback_mix] of [mbss_oneshot], with more sources than
    targets, the interferers together get [10 ** (-sir / 10)] times the
    total power of the targets; the noise level is not taken off, unlike in
    [one_loop]. *)
Theorem mix_levels_meet_sir (sir : R) (src_std : list R) (n_src n_tgt : Z) :
  (n_tgt < n_src)%Z ->
  exists sigma_i : R,
    mix_sigma_i sir src_std n_src n_tgt = Finite sigma_i /\
    0 <= sigma_i /\
    IZR (n_src - n_tgt) * sigma_i ^ 2
    = db_to_ratio sir * np_sum (map (fun s => s ^ 2) src_std).
Proof.
  intros Hlt.
  pose proof (db_to_ratio_pos sir) as Hc.
  pose proof (np_sum_squares_nonneg src_std) as HS.
  assert (HnR : 0 < IZR (n_src - n_tgt)) by (apply IZR_lt; lia).
  set (num := db_to_ratio sir * np_sum (map (fun s => s ^ 2) src_std)) in *.
  assert (Hnum : 0 <= num) by (unfold num; nra).
  assert (Hq : 0 <= num / IZR (n_src - n_tgt)).
  { apply Rmult_le_pos; [assumption|]. left. now apply Rinv_0_lt_compat. }
  exists (sqrt (num / IZR (n_src - n_tgt))).
  split.
  - unfold mix_sigma_i. fold num. cbv zeta. simpl.
    destruct (Z.eqb_spec (n_src - n_tgt) 0); [lia|]. simpl.
    destruct (Rlt_dec _ 0); [lra | reflexivity].
  - split; [apply sqrt_pos|].
    simpl. rewrite Rmult_1_r, sqrt_sqrt by assumption. field. lra.
Qed.

Lemma mix_levels_meet_sir_witness :
  exists sigma_i : R,
    mix_sigma_i 10 [sqrt 0.5; 1; 1; 1] 14 4 = Finite sigma_i /\
    0 <= sigma_i /\
    IZR (14 - 4) * sigma_i ^ 2
    = db_to_ratio 10 * np_sum (map (fun s => s ^ 2) [sqrt 0.5; 1; 1; 1]).
Proof. apply (mix_levels_meet_sir 10 [sqrt 0.5; 1; 1; 1] 14 4). lia. Defined.

End More_levels.

(* ===================================================================== *)
(** * The window of the evaluation *)
(* ===================================================================== *)

(** X4.  The two signals that the callbacks hand to [bss_eval_sources] have
    the same number of samples.  With [m] as the callbacks compute it, and
    a synthesized signal at least half a frame long, the slice [:m] of the
    references and the slice [framesize // 2 : m + framesize // 2] of the
    synthesized signal both select [m] samples.  When the synthesized
    signal is shorter than half a frame, [m] is negative: the slice of the
    synthesized signal is then empty, while [:m] drops the last samples of
    the references. *)
Theorem evaluation_window_aligned (framesize y_len ref_len : Z) :
  (0 <= framesize)%Z -> (0 <= y_len)%Z -> (0 <= ref_len)%Z ->
  let h := (framesize / 2)%Z in
  let m := evaluation_length framesize y_len ref_len in
  ((h <= y_len)%Z ->
   slice_length (Upto m) ref_len = Some m /\
   slice_length (Range h (m + h)) y_len = Some m) /\
  ((y_len < h)%Z ->
   slice_length (Range h (m + h)) y_len = Some 0%Z /\
   slice_length (Upto m) ref_len = Some (Z.max 0 (ref_len + m))).
Proof.
  intros Hf Hy Hr h m.
  assert (Hh : (0 <= h)%Z) by (apply Z.div_pos; lia).
  unfold evaluation_length in m. fold h in m.
  unfold slice_length, slice_bound. split; intros Hlen.
  - assert (Hm : (0 <= m)%Z) by (unfold m; lia).
    destruct (Z.ltb_spec m 0); [lia|].
    destruct (Z.ltb_spec (m + h) 0); [lia|].
    destruct (Z.ltb_spec h 0); [lia|].
    split; f_equal; unfold m in *; lia.
  - assert (Hm : (m < 0)%Z) by (unfold m; lia).
    destruct (Z.ltb_spec m 0); [|lia].
    destruct (Z.ltb_spec h 0); [lia|].
    split; [|f_equal; lia].
    destruct (Z.ltb_spec (m + h) 0); f_equal; unfold m in *; lia.
Qed.

(** A signal of 16384 samples, references of 16000 samples, frames of 4096
    samples. *)
Lemma evaluation_window_aligned_witness :
  slice_length (Upto (evaluation_length 4096 16384 16000)) 16000
  = Some (evaluation_length 4096 16384 16000) /\
  slice_length
    (Range (4096 / 2) (evaluation_length 4096 16384 16000 + 4096 / 2)) 16384
  = Some (evaluation_length 4096 16384 16000).
Proof.
  apply (evaluation_window_aligned 4096 16384 16000); try lia.
  vm_compute. discriminate.
Defined.

(* ===================================================================== *)
(** * Further properties of the callbacks *)
(* ===================================================================== *)

Section More_callbacks.

Context {L : Library}.

Lemma evaluate_in_order_raise (order : ndarray -> ndarray) (Y : loc)
    (n_targets : Z) (SDR SIR : loc) (ref : ndarray) (framesize : Z)
    (win_s : ndarray) (w w' : world) (e : exn) (xs ys : list (list R)) :
  metric_list w SDR = Some xs -> metric_list w SIR = Some ys ->
  evaluate_in_order order Y n_targets SDR SIR ref framesize win_s w
  = (Raise e, w') ->
  heap w' = heap w /\ sys_path w' = sys_path w.
Proof.
  unfold metric_list. intros HSDR HSIR.
  destruct (heap w !! SDR) as [[|xs0]|] eqn:ESDR; try discriminate.
  destruct (heap w !! SIR) as [[|ys0]|] eqn:ESIR; try discriminate.
  unfold evaluate_in_order, mbind, M_bind, read_array, call, list_append.
  destruct (heap w !! Y) as [[a|]|] eqn:HY;
    try (intros [= _ <-]; now split).
  destruct (pra_synthesis _ _ _ _ _) as [[y|e1] r];
    [|intros [= _ <-]; now split].
  destruct (bss_eval_sources _ _ _) as [[[[[sdr sir] sar] perm]|e2] r'];
    [|intros [= _ <-]; now split].
  simpl. rewrite ESDR. simpl.
  destruct (decide (SIR = SDR)) as [->|Hne].
  - rewrite list_lookup_insert_eq by (now apply lookup_lt_Some in ESDR).
    discriminate.
  - rewrite list_lookup_insert_ne by auto. rewrite ESIR. discriminate.
Qed.

(** X5.  An invocation of either convergence callback that raises has
    changed nothing, provided its two lists are lists: the evaluation comes
    first and the two [append]s last, so the lists get their entries
    together or not at all. *)
Theorem callback_raise_changes_nothing (Y : loc) (n_targets : Z)
    (SDR SIR : loc) (ref : ndarray) (framesize : Z) (win_s : ndarray)
    (algo_name : string) (w : world) (xs ys : list (list R)) :
  metric_list w SDR = Some xs -> metric_list w SIR = Some ys ->
  let sim :=
    convergence_callback Y n_targets SDR SIR ref framesize win_s algo_name w in
  let oneshot :=
    oneshot_convergence_callback algo_name n_targets framesize win_s ref
      SDR SIR Y w in
  (sim.1 <> Ok tt -> heap sim.2 = heap w /\ sys_path sim.2 = sys_path w) /\
  (oneshot.1 <> Ok tt ->
   heap oneshot.2 = heap w /\ sys_path oneshot.2 = sys_path w).
Proof.
  intros HSDR HSIR. cbv zeta.
  rewrite convergence_callback_unfold, oneshot_convergence_callback_unfold.
  split.
  all: destruct (evaluate_in_order _ _ _ _ _ _ _ _ _) as [[[]|e] w'] eqn:Hrun;
    simpl; intros Hraise; [congruence|];
    exact (evaluate_in_order_raise _ _ _ _ _ _ _ _ _ _ _ _ _
             HSDR HSIR Hrun).
Qed.

(** X6.  Given one and the same list for [SDR] and [SIR], an invocation of
    either convergence callback that returns has appended two entries to
    it, the SDR first and the SIR second. *)
Theorem callback_same_list (Y : loc) (n_targets : Z) (metrics : loc)
    (ref : ndarray) (framesize : Z) (win_s : ndarray) (algo_name : string)
    (w : world) (xs : list (list R)) :
  metric_list w metrics = Some xs ->
  let sim :=
    convergence_callback Y n_targets metrics metrics ref framesize win_s
      algo_name w in
  let oneshot :=
    oneshot_convergence_callback algo_name n_targets framesize win_s ref
      metrics metrics Y w in
  (sim.1 = Ok tt ->
   exists sdr sir : list R,
     metric_list sim.2 metrics = Some (xs ++ [sdr; sir])) /\
  (oneshot.1 = Ok tt ->
   exists sdr sir : list R,
     metric_list oneshot.2 metrics = Some (xs ++ [sdr; sir])).
Proof.
  intros Hxs. cbv zeta.
  rewrite convergence_callback_unfold, oneshot_convergence_callback_unfold.
  split; intros Hok.
  all: match goal with
       | H : (?c).1 = Ok tt |- _ =>
           destruct c as [o w'] eqn:Hrun; simpl in H; subst o;
           apply evaluate_in_order_ok in Hrun
             as (a & xs' & ys' & sdr & sir & _ & H1 & H2 & H3 & _)
       end.
  all: unfold metric_list in *; rewrite H1 in Hxs; injection Hxs as ->;
    rewrite list_lookup_insert_eq in H2 by (now apply lookup_lt_Some in H1);
    injection H2 as <-;
    exists sdr, sir; simpl; rewrite H3;
    rewrite list_lookup_insert_eq
      by (rewrite length_insert; now apply lookup_lt_Some in H1);
    now rewrite <- app_assoc.
Qed.

End More_callbacks.

Lemma aliased_run_eq :
  convergence_callback (L := Small.library) 0 1 1 1 0 4 0 "auxiva"
    Small.listening = Cases.aliased_run.
Proof. vm_compute. reflexivity. Qed.

Lemma misdirected_run_eq :
  convergence_callback (L := Small.library) 1 1 1 2 0 4 0 "auxiva"
    Small.listening = Cases.misdirected_run.
Proof. vm_compute. reflexivity. Qed.

Lemma callback_raise_changes_nothing_witness :
  (convergence_callback (L := Small.library) 1 1 1 2 0 4 0 "auxiva"
     Small.listening).1 = Raise AttributeError /\
  heap (convergence_callback (L := Small.library) 1 1 1 2 0 4 0 "auxiva"
          Small.listening).2 = heap Small.listening.
Proof.
  destruct (callback_raise_changes_nothing (L := Small.library)
              1 1 1 2 0 4 0 "auxiva" Small.listening [] [] eq_refl eq_refl)
    as [Hsim _].
  rewrite misdirected_run_eq in *.
  split; [reflexivity|]. apply Hsim. discriminate.
Defined.

Lemma callback_same_list_witness :
  exists sdr sir : list R,
    metric_list
      (convergence_callback (L := Small.library) 0 1 1 1 0 4 0 "auxiva"
         Small.listening).2 1 = Some ([] ++ [sdr; sir]).
Proof.
  destruct (callback_same_list (L := Small.library)
              0 1 1 0 4 0 "auxiva" Small.listening [] eq_refl)
    as [Hsim _].
  rewrite aliased_run_eq in *. apply Hsim. reflexivity.
Defined.

(* ===================================================================== *)
(** * Further properties of [generate_arguments] *)
(* ===================================================================== *)

Section More_arguments.

Context {L : Library}.

Variable parameters : Parameters.

Lemma for_each_ext {A S : Type} (xs : list A) (body body' : S -> A -> M S) :
  (forall (acc : S) (x : A) (w : world), body acc x w = body' acc x w) ->
  forall (acc : S) (w : world),
    for_each xs body acc w = for_each xs body' acc w.
Proof.
  intros Hbody. induction xs as [|x xs IH]; intros acc w; simpl.
  - reflexivity.
  - apply bind_cong; [apply Hbody | exact IH].
Qed.

Lemma for_each_app {A S : Type} (xs ys : list A) (body : S -> A -> M S)
    (acc : S) (w : world) :
  for_each (xs ++ ys) body acc w
  = (for_each xs body acc ≫= for_each ys body) w.
Proof.
  revert acc w. induction xs as [|x xs IH]; intros acc w; simpl.
  - reflexivity.
  - rewrite bind_assoc. apply bind_cong; [reflexivity | exact IH].
Qed.

Lemma for_each_flat_map {A B S : Type} (f : A -> list B) (xs : list A)
    (body : S -> B -> M S) (acc : S) (w : world) :
  for_each (flat_map f xs) body acc w
  = for_each xs (fun acc x => for_each (f x) body acc) acc w.
Proof.
  revert acc w. induction xs as [|x xs IH]; intros acc w; simpl.
  - reflexivity.
  - rewrite for_each_app. apply bind_cong; [reflexivity | exact IH].
Qed.

Lemma for_each_map {A B S : Type} (g : A -> B) (xs : list A)
    (body : S -> B -> M S) (acc : S) (w : world) :
  for_each (map g xs) body acc w
  = for_each xs (fun acc x => body acc (g x)) acc w.
Proof.
  revert acc w. induction xs as [|x xs IH]; intros acc w; simpl.
  - reflexivity.
  - apply bind_cong; [reflexivity | exact IH].
Qed.

(** The five loops are one loop over the conditions. *)
Lemma generate_arguments_loops_flat (all_wav_files : list (list string))
    (w : world) :
  generate_arguments_loops parameters all_wav_files w
  = for_each (conditions parameters all_wav_files) emit [] w.
Proof.
  unfold generate_arguments_loops, conditions.
  rewrite for_each_flat_map. apply for_each_ext. intros acc1 n_targets w1.
  rewrite for_each_flat_map. apply for_each_ext. intros acc2 n_mics w2.
  destruct (n_targets >? n_mics)%Z; [reflexivity|].
  rewrite for_each_flat_map. apply for_each_ext. intros acc3 rt60 w3.
  rewrite for_each_flat_map. apply for_each_ext. intros acc4 sinr w4.
  rewrite for_each_map. apply for_each_ext. intros acc5 wav_files w5.
  reflexivity.
Qed.

Lemma with_np_random_same (w : world) : with_np_random (np_random w) w = w.
Proof. now destruct w. Qed.

Lemma emit_all (cs : list condition) :
  forall (acc : list sim_args) (w : world),
    for_each cs emit acc w
    = (Ok (acc ++ zip_with with_seed cs
                    (draws (length cs) (np_random w)).1),
       with_np_random (draws (length cs) (np_random w)).2 w).
Proof.
  induction cs as [|c cs IH]; intros acc w; simpl.
  - now rewrite app_nil_r, with_np_random_same.
  - unfold mbind, M_bind, emit at 1, np_random_randint.
    unfold mbind, M_bind.
    destruct (randint (2 ^ 32) (np_random w)) as [x r1]. simpl.
    rewrite IH. simpl.
    destruct (draws (length cs) r1) as [xs r2]. simpl.
    now rewrite <- app_assoc.
Qed.

Lemma draws_length (n : nat) (r : rng_state) : length (draws n r).1 = n.
Proof.
  revert r. induction n as [|n IH]; intros r; simpl; [reflexivity|].
  destruct (randint (2 ^ 32) r) as [x r1].
  specialize (IH r1). destruct (draws n r1) as [xs r2]. simpl in *. lia.
Qed.

(** What a returning call of [generate_arguments] has done. *)
Lemma generate_arguments_ok (w : world) (args : list sim_args)
    (w' : world) :
  generate_arguments parameters w = (Ok args, w') ->
  exists (n : Z) (others : list Z) (all_wav_files : list (list string))
         (r : rng_state),
    n_targets_list parameters = n :: others /\
    (let '(gen_files_seed, r1) :=
       randint (2 ^ 32) (seeded (seed parameters)) in
     sampling (n_repeat parameters)
       (n_interferers parameters + foldr Z.max n others)
       (samples_list parameters) true gen_files_seed r1
     = (Ok all_wav_files, r)) /\
    let cs := conditions parameters all_wav_files in
    args = zip_with with_seed cs (draws (length cs) r).1.
Proof.
  unfold generate_arguments. intros Hrun.
  apply bind_ok in Hrun as (rs & w1 & [= <- <-] & Hrun).
  apply bind_ok in Hrun as ([] & w2 & [= <-] & Hrun).
  apply bind_ok in Hrun as (gen & w3 & Hgen & Hrun).
  apply bind_ok in Hrun as (max_targets & w4 & Hmax & Hrun).
  apply bind_ok in Hrun as (files & w5 & Hfiles & Hrun).
  apply bind_ok in Hrun as (args' & w6 & Hloops & Hrun).
  apply bind_ok in Hrun as ([] & w7 & _ & [= <- _]).
  unfold np_max in Hmax.
  destruct (n_targets_list parameters) as [|n others] eqn:Htargets;
    [discriminate|].
  injection Hmax as <- <-.
  unfold np_random_randint in Hgen. simpl in Hgen.
  destruct (randint (2 ^ 32) (seeded (seed parameters))) as [g r1] eqn:Hg.
  injection Hgen as <- <-.
  unfold call in Hfiles. simpl in Hfiles.
  destruct (sampling _ _ _ _ _ _) as [o r] eqn:Hs.
  injection Hfiles as -> <-.
  rewrite generate_arguments_loops_flat, emit_all in Hloops.
  injection Hloops as <- _. simpl.
  exists n, others, files, r.
  split; [reflexivity|]. split; [exact Hs|]. reflexivity.
Qed.

(** X7.  A call of [generate_arguments] that returns, returns one argument
    list for each condition of the grid, in the order of the nested loops
    ([n_targets] outermost, the recordings innermost), the combinations
    with more targets than microphones left out.  The seeds of the argument
    lists are the successive draws from the generator, starting where the
    call of [sampling] left it; the generator had been seeded with
    [parameters['seed']] and had given the seed of [sampling] first. *)
Theorem generate_arguments_grid (w : world) (args : list sim_args)
    (w' : world) :
  generate_arguments parameters w = (Ok args, w') ->
  exists (n : Z) (others : list Z) (all_wav_files : list (list string))
         (r : rng_state),
    n_targets_list parameters = n :: others /\
    (let '(gen_files_seed, r1) :=
       randint (2 ^ 32) (seeded (seed parameters)) in
     sampling (n_repeat parameters)
       (n_interferers parameters + foldr Z.max n others)
       (samples_list parameters) true gen_files_seed r1
     = (Ok all_wav_files, r)) /\
    let cs := conditions parameters all_wav_files in
    args = zip_with with_seed cs (draws (length cs) r).1 /\
    length args = length cs.
Proof.
  intros Hrun.
  apply generate_arguments_ok in Hrun
    as (n & others & files & r & Htargets & Hfiles & Hargs).
  exists n, others, files, r.
  split; [exact Htargets|]. split; [exact Hfiles|].
  cbv zeta in *. split; [exact Hargs|].
  rewrite Hargs, length_zip_with, draws_length. lia.
Qed.

Lemma length_flat_map_const {A B : Type} (f : A -> list B) (l : list A)
    (c : nat) :
  (forall x : A, length (f x) = c) -> length (flat_map f l) = length l * c.
Proof.
  intros Hf. induction l as [|x l IH]; simpl; [reflexivity|].
  rewrite length_app, Hf, IH. lia.
Qed.

Lemma length_flat_map_filter {A B : Type} (f : A -> list B)
    (P : A -> Prop) `{forall x, Decision (P x)} (l : list A) (c : nat) :
  (forall x : A, length (f x) = if decide (P x) then c else 0) ->
  length (flat_map f l) = length (filter P l) * c.
Proof.
  intros Hf. induction l as [|x l IH]; [reflexivity|].
  cbn [flat_map]. rewrite length_app, Hf, IH, filter_cons.
  destruct (decide (P x)); simpl; lia.
Qed.

Lemma length_flat_map_scaled {A B C : Type} (f : A -> list B)
    (g : A -> list C) (l : list A) (c : nat) :
  (forall x : A, length (f x) = length (g x) * c) ->
  length (flat_map f l) = length (flat_map g l) * c.
Proof.
  intros Hf. induction l as [|x l IH]; [reflexivity|].
  cbn [flat_map]. rewrite !length_app, Hf, IH. lia.
Qed.

Lemma conditions_length (all_wav_files : list (list string)) :
  length (conditions parameters all_wav_files)
  = determined_pairs parameters
    * (length (rt60_list parameters)
       * (length (sinr_list parameters) * length all_wav_files)).
Proof.
  unfold conditions, determined_pairs.
  apply length_flat_map_scaled. intros n_targets.
  apply length_flat_map_filter. intros n_mics.
  destruct (Z.gtb_spec n_targets n_mics) as [Hgt|Hle];
    destruct (decide (n_targets <= n_mics)%Z) as [Hle'|Hgt']; try lia;
    [reflexivity|].
  rewrite (length_flat_map_const _ _
             (length (sinr_list parameters) * length all_wav_files)).
  - now rewrite length_fmap.
  - intros rt60. apply length_flat_map_const. intros sinr.
    apply length_map.
Qed.

(** X8.  A call of [generate_arguments] that returns, returns as many
    argument lists as there are pairs of [n_targets_list] and
    [n_mics_list] with no more targets than microphones, times the number
    of reverberation times, times the number of values of [sinr], times
    the number of file lists that [sampling] gave; none, then, when one of
    these is empty. *)
Theorem generate_arguments_count (w : world) (args : list sim_args)
    (w' : world) :
  generate_arguments parameters w = (Ok args, w') ->
  exists (n : Z) (others : list Z) (all_wav_files : list (list string))
         (r : rng_state),
    n_targets_list parameters = n :: others /\
    (let '(gen_files_seed, r1) :=
       randint (2 ^ 32) (seeded (seed parameters)) in
     sampling (n_repeat parameters)
       (n_interferers parameters + foldr Z.max n others)
       (samples_list parameters) true gen_files_seed r1
     = (Ok all_wav_files, r)) /\
    length args
    = determined_pairs parameters
      * (length (rt60_list parameters)
         * (length (sinr_list parameters) * length all_wav_files)).
Proof.
  intros Hrun.
  apply generate_arguments_ok in Hrun
    as (n & others & files & r & Htargets & Hfiles & Hargs).
  exists n, others, files, r.
  split; [exact Htargets|]. split; [exact Hfiles|].
  cbv zeta in Hargs.
  rewrite Hargs, length_zip_with, draws_length, Nat.min_id.
  apply conditions_length.
Qed.

(** X9.  With an empty [n_targets_list], [generate_arguments] raises
    [ValueError] ([np.max] of an empty list).  By then the generator has
    been seeded and has given one number, and it stays so: the state that
    the call found is not put back.  [sampling] is not called. *)
Theorem generate_arguments_no_targets (w : world) :
  n_targets_list parameters = [] ->
  generate_arguments parameters w
  = (Raise ValueError,
     {| np_random := (randint (2 ^ 32) (seeded (seed parameters))).2;
        sys_path := sys_path w; heap := heap w; calls := calls w |}).
Proof.
  intros Hempty.
  unfold generate_arguments, mbind, M_bind, np_random_get_state,
    np_random_seed, np_random_randint, np_max.
  simpl. rewrite Hempty.
  now destruct (randint (2 ^ 32) (seeded (seed parameters))) as [g r1].
Qed.

End More_arguments.

Lemma generate_arguments_grid_witness :
  exists (args : list sim_args) (w' : world),
    generate_arguments (L := Small.library) Small.parameters Small.start
    = (Ok args, w') /\
    exists (all_wav_files : list (list string)) (r : rng_state),
      args = zip_with with_seed
               (conditions Small.parameters all_wav_files)
               (draws (L := Small.library)
                  (length (conditions Small.parameters all_wav_files)) r).1.
Proof.
  destruct Small.arguments_run as [[args|e] w'] eqn:Erun;
    [|discriminate Erun].
  exists args, w'. rewrite arguments_run_eq, Erun.
  split; [reflexivity|].
  destruct (generate_arguments_grid (L := Small.library) Small.parameters
              Small.start args w')
    as (n & others & files & r & _ & _ & Hargs & _).
  { now rewrite arguments_run_eq. }
  exists files, r. exact Hargs.
Defined.

Lemma generate_arguments_count_witness :
  exists (args : list sim_args) (w' : world),
    generate_arguments (L := Small.library) Small.parameters Small.start
    = (Ok args, w') /\
    exists n_file_lists : nat,
      length args
      = determined_pairs Small.parameters
        * (length (rt60_list Small.parameters)
           * (length (sinr_list Small.parameters) * n_file_lists)).
Proof.
  destruct Small.arguments_run as [[args|e] w'] eqn:Erun;
    [|discriminate Erun].
  exists args, w'. rewrite arguments_run_eq, Erun.
  split; [reflexivity|].
  destruct (generate_arguments_count (L := Small.library) Small.parameters
              Small.start args w')
    as (n & others & files & r & _ & _ & Hlen).
  { now rewrite arguments_run_eq. }
  exists (length files). exact Hlen.
Defined.

Lemma generate_arguments_no_targets_witness :
  (generate_arguments (L := Small.library) Cases.no_targets Small.start).1
  = Raise ValueError /\
  np_random
    (generate_arguments (L := Small.library) Cases.no_targets Small.start).2
  = 8.
Proof.
  rewrite (generate_arguments_no_targets (L := Small.library)
             Cases.no_targets Small.start eq_refl).
  split; reflexivity.
Defined.

(* ===================================================================== *)
(** * Further properties of [one_loop] *)
(* ===================================================================== *)

Section More_simulation.

Context {L : Library}.

Variable parameters : Parameters.

Lemma leaves_ret {T A : Type} (part : world -> T) (a : A) :
  leaves part (mret a).
Proof. now intros w. Qed.

Lemma leaves_raise {T A : Type} (part : world -> T) (e : exn) :
  leaves part (raise (A := A) e).
Proof. now intros w. Qed.

Lemma leaves_bind {T A B : Type} (part : world -> T) (m : M A)
    (f : A -> M B) :
  leaves part m -> (forall a : A, leaves part (f a)) ->
  leaves part (m ≫= f).
Proof.
  intros Hm Hf w. unfold mbind, M_bind. specialize (Hm w).
  destruct (m w) as [[a|e] w1]; simpl in *.
  - now rewrite Hf.
  - assumption.
Qed.

Lemma leaves_for_each {T A S : Type} (part : world -> T) (xs : list A)
    (body : S -> A -> M S) :
  (forall (acc : S) (x : A), leaves part (body acc x)) ->
  forall acc : S, leaves part (for_each xs body acc).
Proof.
  intros Hbody. induction xs as [|x xs IH]; intros acc; simpl.
  - apply leaves_ret.
  - apply leaves_bind; [apply Hbody | exact IH].
Qed.

Lemma leaves_dict_get {T V : Type} (part : world -> T)
    (d : list (string * V)) (key : string) :
  leaves part (dict_get d key).
Proof.
  induction d as [|[k v] d IH]; simpl.
  - apply leaves_raise.
  - destruct (String.eqb k key); [apply leaves_ret | exact IH].
Qed.

Lemma leaves_ext {T A : Type} (part : world -> T) (m m' : M A) :
  (forall w : world, m w = m' w) -> leaves part m' -> leaves part m.
Proof. intros Heq Hm w. rewrite Heq. apply Hm. Qed.

(** The steps of [generate_audio] are calls of library functions and one
    draw of noise; what those leave alone, it leaves alone. *)
Lemma generate_audio_leaves {T : Type} (part : world -> T)
    (n_targets n_mics : Z) (rt60 : string) (sinr : R)
    (wav_files : list string) :
  (forall (A : Type) (name : string) (f : ext A), leaves part (call name f)) ->
  (forall shape : list Z, leaves part (np_random_randn shape)) ->
  leaves part
    (generate_audio parameters n_targets n_mics rt60 sinr wav_files).
Proof.
  intros Hcall Hrandn. unfold generate_audio.
  repeat first
    [ apply leaves_bind; [|intros]
    | apply Hcall
    | apply Hrandn
    | apply leaves_ret
    | apply leaves_raise
    | apply leaves_dict_get
    | apply leaves_for_each; intros ? [? ?]
    | match goal with
      | |- leaves _ (if ?b then _ else _) => destruct b
      end ].
Qed.

Lemma call_leaves_sys_path {A : Type} (name : string) (f : ext A) :
  leaves sys_path (call name f).
Proof. intros w. unfold call. now destruct (f (np_random w)). Qed.

Lemma call_leaves_heap {A : Type} (name : string) (f : ext A) :
  leaves heap (call name f).
Proof. intros w. unfold call. now destruct (f (np_random w)). Qed.

Lemma randn_leaves_sys_path (shape : list Z) :
  leaves sys_path (np_random_randn shape).
Proof.
  intros w. unfold np_random_randn. now destruct (randn shape (np_random w)).
Qed.

Lemma randn_leaves_heap (shape : list Z) :
  leaves heap (np_random_randn shape).
Proof.
  intros w. unfold np_random_randn. now destruct (randn shape (np_random w)).
Qed.

Lemma alloc_leaves_sys_path (o : pyobj) : leaves sys_path (alloc o).
Proof. now intros w. Qed.

Lemma read_array_leaves_sys_path (l : loc) : leaves sys_path (read_array l).
Proof.
  intros w. unfold read_array. now destruct (heap w !! l) as [[?|?]|].
Qed.

Lemma callback_leaves_sys_path (Y : loc) (n_targets : Z) (SDR SIR : loc)
    (ref : ndarray) (framesize : Z) (win_s : ndarray) (name : string) :
  leaves sys_path
    (convergence_callback Y n_targets SDR SIR ref framesize win_s name).
Proof.
  intros w. rewrite convergence_callback_unfold.
  apply evaluate_in_order_frame.
Qed.

Lemma run_alg_leaves_sys_path (cb : option (loc -> M unit))
    (step : alg_step rng_state) :
  (forall f, cb = Some f -> forall Y, leaves sys_path (f Y)) ->
  leaves sys_path (run_alg step cb).
Proof.
  intros Hcb. induction step as [Y r|Y r resume IH|e r]; simpl.
  - apply leaves_bind; [now intros w|]. intros _. apply alloc_leaves_sys_path.
  - apply leaves_bind; [now intros w|]. intros _.
    apply leaves_bind.
    + destruct cb as [f|]; [|apply leaves_ret].
      apply leaves_bind; [apply alloc_leaves_sys_path|].
      intros y. now apply Hcb.
    + intros _. apply leaves_bind; [now intros w|]. intros r'. apply IH.
  - apply leaves_bind; [now intros w|]. intros _. apply leaves_raise.
Qed.

Lemma separate_leaves_sys_path (name : string) (X : Spectra)
    (U_blinky : matrix) (n_targets : Z) (kw : kwargs)
    (cb : option (loc -> M unit)) :
  (forall f, cb = Some f -> forall Y, leaves sys_path (f Y)) ->
  leaves sys_path (separate name X U_blinky n_targets kw cb).
Proof.
  intros Hcb w. unfold separate, call_alg.
  destruct (String.eqb name "auxiva");
    now rewrite (run_alg_leaves_sys_path cb _ Hcb).
Qed.

Lemma bss_algorithm_leaves_sys_path (n_targets n_mics : Z) (rt60 : string)
    (sinr : R) (seed : Z) (X_mics : loc) (U_blinky : matrix)
    (ref win_s : ndarray) (results : list result)
    (item : string * kwargs) :
  leaves sys_path
    (bss_algorithm parameters n_targets n_mics rt60 sinr seed X_mics
       U_blinky ref win_s results item).
Proof.
  destruct item as [name kw]. destruct (implemented name) eqn:Himpl.
  - eapply leaves_ext;
      [intros w; now apply bss_algorithm_implemented|].
    unfold evaluated_separation.
    apply leaves_bind; [apply alloc_leaves_sys_path|]. intros sdr_list.
    apply leaves_bind; [apply alloc_leaves_sys_path|]. intros sir_list.
    cbv zeta.
    apply leaves_bind.
    { destruct (monitor_convergence parameters);
        [apply leaves_ret | apply callback_leaves_sys_path]. }
    intros _. apply leaves_bind; [apply read_array_leaves_sys_path|].
    intros X. apply leaves_bind.
    { apply separate_leaves_sys_path. intros f Hf Y.
      destruct (monitor_convergence parameters); [|discriminate].
      injection Hf as <-. apply callback_leaves_sys_path. }
    intros Y. apply leaves_bind; [apply callback_leaves_sys_path|].
    intros _. apply leaves_ret.
  - eapply leaves_ext; [intros w; now apply bss_algorithm_other|].
    unfold recorded_only.
    apply leaves_bind; [apply alloc_leaves_sys_path|]. intros sdr_list.
    apply leaves_bind; [apply alloc_leaves_sys_path|]. intros sir_list.
    apply leaves_bind.
    { destruct (monitor_convergence parameters);
        [apply leaves_ret | apply callback_leaves_sys_path]. }
    intros _. apply leaves_ret.
Qed.

Lemma bss_leaves_sys_path (n_targets n_mics : Z) (rt60 : string) (sinr : R)
    (seed : Z) (mix ref win_a win_s : ndarray) :
  leaves sys_path
    (bss parameters n_targets n_mics rt60 sinr seed mix ref win_a win_s).
Proof.
  unfold bss.
  apply leaves_bind; [apply call_leaves_sys_path|]. intros X_all.
  apply leaves_bind; [apply alloc_leaves_sys_path|]. intros X_mics.
  apply leaves_for_each. intros acc item.
  apply bss_algorithm_leaves_sys_path.
Qed.

(** X10.  Every call of [one_loop], whatever its arguments and whether it
    returns or raises, appends [parameters['base_dir']] to [sys.path], once,
    and changes [sys.path] in no other way: the list grows by one entry
    with every call. *)
Theorem one_loop_grows_sys_path (args : sim_args) (w : world) :
  sys_path (one_loop parameters args w).2
  = sys_path w ++ [base_dir parameters].
Proof.
  unfold one_loop.
  match goal with
  | |- sys_path ((_ ≫= ?k) w).2 = _ =>
      assert (Hrest : leaves sys_path (k tt))
  end.
  { cbv beta zeta.
    destruct (arg_n_mics args <? arg_n_targets args)%Z; [apply leaves_ret|].
    apply leaves_bind; [now intros w0|]. intros rs.
    apply leaves_bind; [now intros w0|]. intros _.
    apply leaves_bind.
    { apply generate_audio_leaves;
        [intros; apply call_leaves_sys_path | apply randn_leaves_sys_path]. }
    intros [[[mix ref] win_a] win_s].
    apply leaves_bind; [apply bss_leaves_sys_path|]. intros results.
    apply leaves_bind; [now intros w0|]. intros _. apply leaves_ret. }
  unfold mbind at 1, M_bind at 1. simpl. now rewrite Hrest.
Qed.

End More_simulation.

Section More_results.

Context {L : Library}.

Variable parameters : Parameters.

Lemma dict_get_ok {V : Type} (d : list (string * V)) (key : string)
    (w : world) (v : V) (w' : world) :
  dict_get d key w = (Ok v, w') -> key ∈ d.*1.
Proof.
  induction d as [|[k x] d IH]; simpl; [discriminate|].
  destruct (String.eqb_spec k key) as [->|Hne].
  - intros _. apply list_elem_of_here.
  - intros Hrun. apply list_elem_of_further. now apply IH.
Qed.

(** What [generate_audio] needs to come to its end. *)
Lemma generate_audio_ok (n_targets n_mics : Z) (rt60 : string) (sinr : R)
    (wav_files : list string) (w : world)
    (audio : ndarray * ndarray * ndarray * ndarray) (w' : world) :
  generate_audio parameters n_targets n_mics rt60 sinr wav_files w
  = (Ok audio, w') ->
  (1 <= n_targets)%Z /\ rt60 ∈ (rt60_list parameters).*1.
Proof.
  unfold generate_audio. cbv zeta. intros Hrun.
  apply bind_ok in Hrun as (win_a & w1 & _ & Hrun).
  apply bind_ok in Hrun as (win_s & w2 & _ & Hrun).
  apply bind_ok in Hrun as (sources_var & w3 & Hvar & Hrun).
  apply bind_ok in Hrun as (interferer_locs & w4 & _ & Hrun).
  apply bind_ok in Hrun as (target_locs & w5 & _ & Hrun).
  apply bind_ok in Hrun as (blinky_locs & w6 & _ & Hrun).
  apply bind_ok in Hrun as (circle & w7 & _ & Hrun).
  apply bind_ok in Hrun as (signals & w8 & _ & Hrun).
  apply bind_ok in Hrun as (cfg & w9 & Hcfg & _).
  split.
  - destruct (Z.ltb_spec n_targets 0); [discriminate Hvar|].
    destruct (Z.eqb_spec n_targets 0); [discriminate Hvar|]. lia.
  - eapply dict_get_ok, Hcfg.
Qed.

(** X11.  [one_loop] returns only in two cases: for more targets than
    microphones, or with at least one target and a reverberation time that
    is a key of [parameters['rt60_list']].  With [n_targets <= n_mics] and
    no target, or an unknown reverberation time, the call raises
    ([np.ones] or the assignment to [sources_var[0]], and the lookup in
    [rt60_list], have no guard). *)
Theorem one_loop_returns_only_if (args : sim_args) (w : world)
    (results : list result) (w' : world) :
  one_loop parameters args w = (Ok results, w') ->
  (arg_n_mics args < arg_n_targets args)%Z \/
  ((1 <= arg_n_targets args)%Z /\
   arg_rt60 args ∈ (rt60_list parameters).*1).
Proof.
  unfold one_loop. intros Hrun.
  apply bind_ok in Hrun as ([] & w0 & _ & Hrun).
  destruct (Z.ltb_spec (arg_n_mics args) (arg_n_targets args));
    [now left | right].
  apply bind_ok in Hrun as (rs & w1 & _ & Hrun).
  apply bind_ok in Hrun as ([] & w2 & _ & Hrun).
  apply bind_ok in Hrun as (audio & w3 & Haudio & _).
  eapply generate_audio_ok, Haudio.
Qed.

Lemma list_objects_snoc (results : list result) (r : result) :
  list_objects (results ++ [r]) = list_objects results ++ [sdr r; sir r].
Proof.
  unfold list_objects. now rewrite flat_map_app.
Qed.

(** The loop gives every entry two list objects of its own. *)
Lemma bss_loop_fresh (n_targets n_mics : Z) (rt60 : string) (sinr : R)
    (seed : Z) (X_mics : loc) (U_blinky : matrix) (ref win_s : ndarray)
    (n0 : nat) (items : list (string * kwargs)) :
  forall (results : list result) (w : world) (results' : list result)
         (w' : world),
    for_each items
      (bss_algorithm parameters n_targets n_mics rt60 sinr seed X_mics
         U_blinky ref win_s) results w = (Ok results', w') ->
    n0 <= length (heap w) ->
    NoDup (list_objects results) ->
    Forall (fun l => n0 <= l < length (heap w)) (list_objects results) ->
    keeps n0 w w' /\
    NoDup (list_objects results') /\
    Forall (fun l => n0 <= l < length (heap w')) (list_objects results').
Proof.
  induction items as [|[name kw] items IH];
    intros results w results' w' Hrun Hn0 Hdup Hold.
  - injection Hrun as <- <-. split; [apply keeps_refl | now split].
  - simpl in Hrun. apply bind_ok in Hrun as (results1 & w1 & Hround & Hrun).
    apply bss_algorithm_round in Hround as (Hk & -> & Hr).
    destruct Hr as (Hsdr & Hsir & _). simpl in Hsdr, Hsir.
    pose proof Hk as (Hlen & _).
    destruct (IH _ _ _ _ Hrun) as (Hk' & Hdup' & Hall').
    + lia.
    + rewrite list_objects_snoc. simpl.
      apply NoDup_app. split; [exact Hdup|]. split.
      * intros l Hl Hin. rewrite Forall_forall in Hold.
        specialize (Hold l Hl).
        apply list_elem_of_In in Hin. simpl in Hin.
        destruct Hin as [<-|[<-|[]]]; lia.
      * apply NoDup_cons. split; [|apply NoDup_singleton].
        intros Hin. apply list_elem_of_In in Hin. simpl in Hin.
        destruct Hin as [Heq|[]]. lia.
    + rewrite list_objects_snoc. simpl.
      apply Forall_app. split.
      * eapply Forall_impl; [exact Hold|]. intros l Hl. simpl in Hl. lia.
      * repeat constructor; lia.
    + split; [|now split].
      eapply keeps_trans; [|exact Hk'].
      eapply keeps_weaken; [|exact Hk]. exact Hn0.
Qed.

(** X12.  In the results of a call of [one_loop] that returns, the [sdr]
    and [sir] lists of the entries are pairwise distinct objects, all of
    them created by the call; and the call leaves every object that was
    there before it as it was. *)
Theorem one_loop_fresh_lists (args : sim_args) (w : world)
    (results : list result) (w' : world) :
  one_loop parameters args w = (Ok results, w') ->
  NoDup (list_objects results) /\
  Forall (fun l => length (heap w) <= l < length (heap w'))
         (list_objects results) /\
  (forall l : loc, l < length (heap w) -> heap w' !! l = heap w !! l).
Proof.
  unfold one_loop. intros Hrun.
  apply bind_ok in Hrun as ([] & w0 & [= <-] & Hrun).
  destruct (arg_n_mics args <? arg_n_targets args)%Z.
  { injection Hrun as <- <-. simpl.
    split; [apply NoDup_nil_2|]. split; [constructor | reflexivity]. }
  apply bind_ok in Hrun as (rs & w1 & [= <- <-] & Hrun).
  apply bind_ok in Hrun as ([] & w2 & [= <-] & Hrun).
  apply bind_ok in Hrun as ([[[mix ref] win_a] win_s] & w3 & Haudio & Hrun).
  apply bind_ok in Hrun as (res & w4 & Hbss & Hrun).
  apply bind_ok in Hrun as ([] & w5 & [= <-] & [= <- <-]).
  assert (Hheap3 : heap w3 = heap w).
  { pose proof (generate_audio_leaves parameters heap
                  (arg_n_targets args) (arg_n_mics args) (arg_rt60 args)
                  (arg_sinr args) (arg_wav_files args)
                  (fun A => call_leaves_heap) randn_leaves_heap) as Hleaves.
    match type of Haudio with
    | _ ?w2 = _ => specialize (Hleaves w2)
    end.
    rewrite Haudio in Hleaves. exact Hleaves. }
  unfold bss in Hbss.
  apply bind_ok in Hbss as (X_all & w6 & HX & Hbss).
  assert (Hheap6 : heap w6 = heap w).
  { match type of HX with
    | call ?name ?f _ = _ =>
        pose proof (call_leaves_heap name f w3) as Hleaves
    end.
    rewrite HX in Hleaves. simpl in Hleaves. congruence. }
  apply bind_ok in Hbss as (X_mics & w7 & Halloc & Hbss).
  apply alloc_ok in Halloc as (_ & Hheap7 & Hk7).
  apply (bss_loop_fresh _ _ _ _ _ _ _ _ _ (length (heap w))) in Hbss
    as (Hk & Hdup & Hall).
  - simpl. split; [exact Hdup|]. split; [exact Hall|].
    intros l Hl. destruct Hk as (_ & _ & Hk). rewrite Hk by assumption.
    destruct Hk7 as (_ & _ & Hk7). rewrite Hk7 by (rewrite Hheap6; lia).
    now rewrite Hheap6.
  - rewrite Hheap7, length_app, Hheap6. lia.
  - apply NoDup_nil_2.
  - constructor.
Qed.

End More_results.

Lemma unknown_rt60_run_eq :
  one_loop (L := Small.library) Small.parameters Cases.unknown_rt60
    Small.start = Cases.unknown_rt60_run.
Proof. vm_compute. reflexivity. Qed.

Lemma no_target_run_eq :
  one_loop (L := Small.library) Small.parameters Cases.no_target Small.start
  = Cases.no_target_run.
Proof. vm_compute. reflexivity. Qed.

(** On the small instance: an unknown reverberation time gives [KeyError]
    and no target gives [IndexError]. *)
Example one_loop_raises :
  (one_loop (L := Small.library) Small.parameters Cases.unknown_rt60
     Small.start).1 = Raise (KeyError "0.5") /\
  (one_loop (L := Small.library) Small.parameters Cases.no_target
     Small.start).1 = Raise IndexError.
Proof.
  rewrite unknown_rt60_run_eq, no_target_run_eq. split; reflexivity.
Qed.

Lemma one_loop_returns_only_if_witness :
  exists (results : list result) (w' : world),
    one_loop (L := Small.library) Small.parameters Small.determined
      Small.start = (Ok results, w') /\
    ((arg_n_mics Small.determined < arg_n_targets Small.determined)%Z \/
     ((1 <= arg_n_targets Small.determined)%Z /\
      arg_rt60 Small.determined ∈ (rt60_list Small.parameters).*1)).
Proof.
  destruct Small.determined_run as [[results|e] w'] eqn:Erun;
    [|discriminate Erun].
  exists results, w'. rewrite determined_run_eq, Erun.
  split; [reflexivity|].
  apply (one_loop_returns_only_if (L := Small.library) Small.parameters
           Small.determined Small.start results w').
  now rewrite determined_run_eq.
Defined.

Lemma one_loop_fresh_lists_witness :
  exists (results : list result) (w' : world),
    one_loop (L := Small.library) Small.parameters Small.determined
      Small.start = (Ok results, w') /\
    length (list_objects results) = 6 /\
    NoDup (list_objects results).
Proof.
  destruct Small.determined_run as [[results|e] w'] eqn:Erun;
    [|discriminate Erun].
  exists results, w'. rewrite determined_run_eq, Erun.
  split; [reflexivity|]. split.
  - injection Erun as <- _. reflexivity.
  - apply (one_loop_fresh_lists (L := Small.library) Small.parameters
             Small.determined Small.start results w').
    now rewrite determined_run_eq.
Defined.

(* ===================================================================== *)
(** * The entries of the blinky power *)
(* ===================================================================== *)

Section More_blinky.

#[local] Open Scope R_scope.

Lemma lookup_map {A B : Type} (f : A -> B) (l : list A) (i : nat) :
  map f l !! i = f <$> l !! i.
Proof.
  revert i. induction l as [|x l IH]; intros [|i]; simpl; auto.
Qed.

(** Column [b] of the sum of rows of one width is the sum of the entries
    [b] of the rows. *)
Lemma sum_rows_lookup (width : nat) (rows : matrix) (b : nat) :
  Forall (fun row => length row = width) rows -> (b < width)%nat ->
  foldr (zip_with Rplus) (replicate width 0) rows !! b
  = Some (np_sum (map (fun row => nth b row 0) rows)).
Proof.
  intros Hrows Hb. induction Hrows as [|row rows Hrow _ IH]; simpl.
  - now apply lookup_replicate_2.
  - rewrite lookup_zip_with, IH.
    destruct (lookup_lt_is_Some_2 row b) as [x Hx]; [lia|].
    rewrite Hx. simpl. rewrite nth_lookup, Hx. reflexivity.
Qed.

Lemma nth_power_drop (n b : nat) (row : list complex) :
  (n + b < length row)%nat ->
  nth b (map (fun z => np_abs z ^ 2) (drop n row)) 0
  = np_abs (nth (n + b) row (0, 0)) ^ 2.
Proof.
  intros Hlt.
  destruct (lookup_lt_is_Some_2 row (n + b) Hlt) as [z Hz].
  rewrite !nth_lookup, lookup_map, lookup_drop, Hz. reflexivity.
Qed.

(** X13.  Entry [(t, b)] of [U_blinky] is the sum, over the frequency bins of
    frame [t], of the squared magnitude of channel [n_mics + b] of [X_all]:
    every blinky feeds its own column and nothing else, and the microphone
    channels do not enter the blinky power. *)
Theorem U_blinky_entry (X_all : Spectra) (n_mics : Z) (t b : nat)
    (frame : list (list complex)) :
  Spectra_wf X_all -> (0 <= n_mics)%Z ->
  bins X_all !! t = Some frame ->
  (Z.to_nat n_mics + b < n_chan X_all)%nat ->
  exists row : list R,
    U_blinky_of X_all n_mics !! t = Some row /\
    row !! b
    = Some (np_sum
              (map (fun bin => np_abs (nth (Z.to_nat n_mics + b) bin (0, 0)) ^ 2)
                   frame)).
Proof.
  intros [_ Hframes] _ Hframe Hb.
  rewrite Forall_lookup in Hframes.
  destruct (Hframes t frame Hframe) as [_ Hbins].
  unfold U_blinky_of, power_sum_axis1, chan_drop, matrix.
  cbn [bins n_chan].
  set (n := Z.to_nat n_mics) in *.
  eexists. split.
  - rewrite !lookup_map, Hframe. reflexivity.
  - rewrite sum_rows_lookup.
    + f_equal. f_equal. rewrite !map_map.
      apply map_ext_in. intros bin Hin.
      apply nth_power_drop.
      rewrite Forall_forall in Hbins.
      rewrite (Hbins bin) by now apply list_elem_of_In. exact Hb.
    + rewrite !Forall_map. eapply Forall_impl; [exact Hbins|].
      intros bin Hbin. simpl. rewrite length_map, length_drop, Hbin.
      reflexivity.
    + lia.
Qed.

Lemma U_blinky_entry_witness :
  exists row : list R,
    U_blinky_of Small.spectra1 1 !! 0%nat = Some row /\
    row !! 1%nat
    = Some (np_sum
              (map (fun bin => np_abs (nth (Z.to_nat 1 + 1)%nat bin (0, 0)) ^ 2)
                   [[(1, 0); (0, 1); (3, 4)]])).
Proof.
  apply (U_blinky_entry Small.spectra1 1 0%nat 1%nat [[(1, 0); (0, 1); (3, 4)]]).
  - split; [reflexivity|].
    repeat (constructor; simpl; try reflexivity).
  - lia.
  - reflexivity.
  - simpl. lia.
Defined.

End More_blinky.
